(** * MedicalReportAnalyzer: a shallow embedding of
      src/pages/MedicalReportAnalyzer.jsx and the properties of its analysis.

    JavaScript strings are sequences of code units.  The embedding covers the
    code units below 256 (the Latin-1 range), written as [list ascii]; on that
    range [toLowerCase], the case folding of the [i] flag, white space and
    [trim] are the ones of ECMAScript. *)

From Stdlib Require Import Ascii String DecimalString List Arith NArith Bool Lia.
Import ListNotations.

Set Implicit Arguments.

(** ** Strings *)

Definition jsstring := list ascii.

Definition str (s : string) : jsstring := list_ascii_of_string s.

(** [String.prototype.toLowerCase], one code unit at a time: A-Z and the
    Latin-1 capitals U+00C0-U+00DE (the multiplication sign apart) move up by
    32. *)
Definition lowerChar (c : ascii) : ascii :=
  let n := nat_of_ascii c in
  if ((65 <=? n) && (n <=? 90)) || ((192 <=? n) && (n <=? 222) && negb (n =? 215))
  then ascii_of_nat (n + 32)
  else c.

Definition toLowerCase (s : jsstring) : jsstring := map lowerChar s.

(** [Canonicalize] of a regular expression with the [i] flag and without the
    [u] flag: the code unit is upper-cased when the result is one code unit.
    U+00B5 and U+00FF have capitals outside the range, U+00DF has a capital of
    two code units, and no other code unit of the range shares them: they stand
    for themselves. *)
Definition canonicalize (c : ascii) : ascii :=
  let n := nat_of_ascii c in
  if ((97 <=? n) && (n <=? 122)) || ((224 <=? n) && (n <=? 254) && negb (n =? 247))
  then ascii_of_nat (n - 32)
  else c.

(** WhiteSpace and LineTerminator, as [trim] and the class [\s] use them:
    TAB, LF, VT, FF, CR, SP and NBSP. *)
Definition isWhiteSpace (c : ascii) : bool :=
  let n := nat_of_ascii c in
  ((9 <=? n) && (n <=? 13)) || (n =? 32) || (n =? 160).

Fixpoint trimStart (s : jsstring) : jsstring :=
  match s with
  | [] => []
  | c :: s' => if isWhiteSpace c then trimStart s' else s
  end.

Definition trimEnd (s : jsstring) : jsstring := rev (trimStart (rev s)).

Definition trim (s : jsstring) : jsstring := trimEnd (trimStart s).

(** [t] is found at the start of [s]. *)
Fixpoint startsWith (s t : jsstring) {struct t} : bool :=
  match t, s with
  | [], _ => true
  | _ :: _, [] => false
  | a :: t', b :: s' => Ascii.eqb a b && startsWith s' t'
  end.

(** [String.prototype.includes]: some index of [s] starts a copy of [t]. *)
Fixpoint includes (s t : jsstring) : bool :=
  startsWith s t ||
  match s with
  | [] => false
  | _ :: s' => includes s' t
  end.

(** [String.prototype.split] on a separator of one code unit. *)
Fixpoint split_from (sep : ascii) (cur : jsstring) (s : jsstring) : list jsstring :=
  match s with
  | [] => [rev cur]
  | c :: s' =>
      if Ascii.eqb c sep then rev cur :: split_from sep [] s'
      else split_from sep (c :: cur) s'
  end.

Definition split (sep : ascii) (s : jsstring) : list jsstring := split_from sep [] s.

(** [Array.prototype.pop], for its value: the last element, [undefined]
    ([None]) on an empty array. *)
Fixpoint pop (A : Type) (l : list A) : option A :=
  match l with
  | [] => None
  | [x] => Some x
  | _ :: l' => pop l'
  end.

(** [Array.prototype.join]: the loop of the language definition, with the
    result [R] and the index [k]; the separator goes before every element but
    the first. *)
Fixpoint join_loop (sep R : jsstring) (k : nat) (l : list jsstring) : jsstring :=
  match l with
  | [] => R
  | x :: l' => join_loop sep ((if k =? 0 then R else R ++ sep) ++ x) (S k) l'
  end.

Definition join (sep : jsstring) (l : list jsstring) : jsstring := join_loop sep [] 0 l.

(** ** Regular expressions

    The fragment the program uses: single code units and classes, greedy
    quantifiers on a class, sequences, and one capture group. *)

Inductive regex : Type :=
| Empty
| Atom (p : ascii -> bool)
| Rep (p : ascii -> bool) (lo : nat) (hi : option nat)
| Seq (r1 r2 : regex)
| Group (r : regex).

Record MatchState : Type := mkState {
  endIndex : nat;
  rest : jsstring;
  capture : option (nat * nat)
}.

Definition Continuation : Type := MatchState -> option MatchState.

(** A greedy [p{lo,hi}] ([hi = None]: no upper bound): one more code unit
    first, the continuation once that fails and [lo] is reached. *)
Fixpoint repeatMatcher (p : ascii -> bool) (lo : nat) (hi : option nat)
    (i : nat) (s : jsstring) (cap : option (nat * nat)) (k : Continuation)
    : option MatchState :=
  let stop := if lo =? 0 then k (mkState i s cap) else None in
  match hi with
  | Some 0 => k (mkState i s cap)
  | _ =>
      match s with
      | [] => stop
      | c :: s' =>
          if p c then
            match repeatMatcher p (pred lo) (option_map pred hi) (S i) s' cap k with
            | Some y => Some y
            | None => stop
            end
          else stop
      end
  end.

Fixpoint matcher (r : regex) (x : MatchState) (k : Continuation) : option MatchState :=
  match r with
  | Empty => k x
  | Atom p =>
      match rest x with
      | [] => None
      | c :: s' => if p c then k (mkState (S (endIndex x)) s' (capture x)) else None
      end
  | Rep p lo hi => repeatMatcher p lo hi (endIndex x) (rest x) (capture x) k
  | Seq r1 r2 => matcher r1 x (fun y => matcher r2 y k)
  | Group r1 =>
      matcher r1 x (fun y => k (mkState (endIndex y) (rest y) (Some (endIndex x, endIndex y))))
  end.

(** The match at index [i], where [s] is the input from [i] on. *)
Definition matchAt (r : regex) (i : nat) (s : jsstring) : option MatchState :=
  matcher r (mkState i s None) Some.

(** [RegExpBuiltinExec] without the [g] flag: the first index, from [i] on,
    with a match. *)
Fixpoint search (r : regex) (i : nat) (s : jsstring) : option (nat * MatchState) :=
  match matchAt r i s with
  | Some y => Some (i, y)
  | None =>
      match s with
      | [] => None
      | _ :: s' => search r (S i) s'
      end
  end.

Definition substring (s : jsstring) (b e : nat) : jsstring := firstn (e - b) (skipn b s).

(** The array [String.prototype.match] returns for a regular expression
    without [g]: the matched text and group 1 ([None]: [undefined]). *)
Record MatchArray : Type := mkMatch {
  index : nat;
  match0 : jsstring;
  match1 : option jsstring
}.

Definition String_match (s : jsstring) (r : regex) : option MatchArray :=
  match search r 0 s with
  | None => None
  | Some (i, y) =>
      Some (mkMatch i (substring s i (endIndex y))
              (option_map (fun be => substring s (fst be) (snd be)) (capture y)))
  end.

(** [String.prototype.match] with the [g] flag: the matches from left to
    right, each search starting where the match before it ended (one further
    on after an empty match).  [skip] counts the code units a match still
    covers. *)
Fixpoint scan (r : regex) (skip : nat) (i : nat) (s : jsstring) : list (nat * nat) :=
  match skip with
  | S n =>
      match s with
      | [] => []
      | _ :: s' => scan r n (S i) s'
      end
  | 0 =>
      match matchAt r i s with
      | Some y =>
          (i, endIndex y) ::
          match s with
          | [] => []
          | _ :: s' => scan r (pred (endIndex y - i)) (S i) s'
          end
      | None =>
          match s with
          | [] => []
          | _ :: s' => scan r 0 (S i) s'
          end
      end
  end.

(** [null] when nothing matches. *)
Definition String_match_g (s : jsstring) (r : regex) : option (list jsstring) :=
  match scan r 0 0 s with
  | [] => None
  | l => Some (map (fun be => substring s (fst be) (snd be)) l)
  end.

(** A pattern character under the [i] flag. *)
Definition chr (c : ascii) : regex :=
  Atom (fun x => Ascii.eqb (canonicalize x) (canonicalize c)).

Definition literal (t : jsstring) : regex := fold_right (fun c r => Seq (chr c) r) Empty t.

(** The syntax characters of a pattern; a pattern text without them denotes
    itself. *)
Definition isSyntaxCharacter (c : ascii) : bool :=
  existsb (Ascii.eqb c) (str "^$\.*+?()[]{}|/").

(** [new RegExp(term, 'gi')] for a pattern text free of syntax characters. *)
Definition RegExp_gi (term : jsstring) : regex := literal term.

Definition digit (c : ascii) : bool :=
  let n := nat_of_ascii c in (48 <=? n) && (n <=? 57).

Definition oneOf (t : string) (c : ascii) : bool := existsb (Ascii.eqb c) (str t).

Definition notNewline (c : ascii) : bool := negb (Ascii.eqb c "010"%char).

Definition colonOrSpace (c : ascii) : bool := Ascii.eqb c ":"%char || isWhiteSpace c.

Definition star (p : ascii -> bool) : regex := Rep p 0 None.
Definition plus (p : ascii -> bool) : regex := Rep p 1 None.

Fixpoint seqs (l : list regex) : regex :=
  match l with
  | [] => Empty
  | r :: l' => Seq r (seqs l')
  end.

(** ** Exceptions

    What a step comes to: a value, an exception with its message (for a
    promise: a rejection), or nothing at all.  [Pending] is an awaited
    promise that is never settled; the code after the [await] is not run,
    nor are the [catch] and [finally] blocks around it.  Only the readers
    of files can be pending. *)

Inductive result (A : Type) : Type :=
| Ok (a : A)
| Throw (message : jsstring)
| Pending.

Arguments Ok {A} a.
Arguments Throw {A} message.
Arguments Pending {A}.

Definition bindR (A B : Type) (m : result A) (f : A -> result B) : result B :=
  match m with
  | Ok a => f a
  | Throw e => Throw e
  | Pending => Pending
  end.

Fixpoint mapR (A B : Type) (f : A -> result B) (l : list A) : result (list B) :=
  match l with
  | [] => Ok []
  | x :: l' => bindR (f x) (fun y => bindR (mapR f l') (fun ys => Ok (y :: ys)))
  end.

(** The message of the TypeError a property read on [null] or [undefined]
    raises. *)
Definition TypeError_read (base prop : string) : jsstring :=
  str "Cannot read properties of " ++ str base ++ str " (reading '" ++ str prop ++ str "')".

(** ** The analyzer *)

Definition LF : ascii := "010"%char.

Record File : Type := mkFile {
  name : jsstring;
  type : jsstring;
  size : N;
  bytes : list ascii
}.

Record KeyInformation : Type := mkInfo {
  label : jsstring;
  value : jsstring
}.

Record PotentialCondition : Type := mkCondition {
  condition_name : jsstring;
  confidence : nat
}.

Record AnalysisResult : Type := mkResult {
  fileType : jsstring;
  fileSize : jsstring;
  keyInformations : list KeyInformation;
  medicalTerms : list jsstring;
  potentialConditions : list PotentialCondition;
  riskFactors : list jsstring;
  recommendations : list jsstring
}.

(** The dictionary of medical terms. *)
Module MEDICAL_TERMS.

Definition conditions : list jsstring :=
  map str ["diabetes"; "hypertension"; "cancer"; "heart disease";
           "arthritis"; "asthma"; "depression"; "alzheimer's"]%string.

Definition riskFactors : list jsstring :=
  map str ["obesity"; "smoking"; "alcohol"; "sedentary lifestyle";
           "high cholesterol"; "family history"]%string.

End MEDICAL_TERMS.

Record KeyPattern : Type := mkPattern {
  pattern_label : jsstring;
  pattern_regex : regex
}.

(** [/patient\s*name[:\s]*([^\n]+)/i] *)
Definition patientNameRegex : regex :=
  seqs [literal (str "patient"); star isWhiteSpace; literal (str "name");
        star colonOrSpace; Group (plus notNewline)].

(** [/age[:\s]*(\d+)/i] *)
Definition ageRegex : regex :=
  seqs [literal (str "age"); star colonOrSpace; Group (plus digit)].

(** [/gender[:\s]*([^\n]+)/i] *)
Definition genderRegex : regex :=
  seqs [literal (str "gender"); star colonOrSpace; Group (plus notNewline)].

(** [/date[:\s]*(\d{1,2}[-/]\d{1,2}[-/]\d{2,4})/i] *)
Definition dateRegex : regex :=
  seqs [literal (str "date"); star colonOrSpace;
        Group (seqs [Rep digit 1 (Some 2); Atom (oneOf "-/"); Rep digit 1 (Some 2);
                     Atom (oneOf "-/"); Rep digit 2 (Some 4)])].

Definition keyPatterns : list KeyPattern :=
  [ mkPattern (str "Patient Name") patientNameRegex;
    mkPattern (str "Age") ageRegex;
    mkPattern (str "Gender") genderRegex;
    mkPattern (str "Date") dateRegex ].

(** [match ? match[1].trim() : 'Not Found']; [trim] on an [undefined] group
    raises a TypeError. *)
Definition patternValue (content : jsstring) (r : regex) : result jsstring :=
  match String_match content r with
  | None => Ok (str "Not Found")
  | Some m =>
      match match1 m with
      | Some g => Ok (trim g)
      | None => Throw (TypeError_read "undefined" "trim")
      end
  end.

Definition extractKeyInformations (content : jsstring) : result (list KeyInformation) :=
  mapR (fun pattern =>
          bindR (patternValue content (pattern_regex pattern))
                (fun v => Ok (mkInfo (pattern_label pattern) v)))
       keyPatterns.

Definition calculateConfidence (content term : jsstring) : nat :=
  let termCount :=
    length (match String_match_g content (RegExp_gi term) with
            | Some l => l
            | None => []
            end) in
  Nat.min (termCount * 20) 100.

Definition specialistLine (cs : list jsstring) : jsstring :=
  str "Consult a specialist for detailed evaluation of: " ++ join (str ", ") cs.

Definition lifestyleLine (rs : list jsstring) : jsstring :=
  str "Consider lifestyle modifications to address risk factors: " ++ join (str ", ") rs.

Definition checkUpLine : jsstring :=
  str "Recommend comprehensive health check-up and personalized health plan".

Definition defaultLine : jsstring :=
  str "No specific recommendations based on the current report".

(** The array [recommendations] is threaded through the three [if]s. *)
Definition generateRecommendations (cs rs : list jsstring) : list jsstring :=
  let recommendations := [] in
  let recommendations :=
    if 0 <? length cs then recommendations ++ [specialistLine cs] else recommendations in
  let recommendations :=
    if 0 <? length rs then (recommendations ++ [lifestyleLine rs]) ++ [checkUpLine]
    else recommendations in
  let recommendations :=
    if length recommendations =? 0 then recommendations ++ [defaultLine]
    else recommendations in
  recommendations.

(** Decimal digits of a natural number. *)
Definition decimal (n : N) : jsstring := str (NilEmpty.string_of_uint (N.to_uint n)).

(** [(size / 1024).toFixed(2)].  The quotient by 1024 is exact in binary
    floating point, and [toFixed(2)] takes the integer [n] with [n / 100]
    nearest to it, the larger one on a tie: [n] is [size * 100 / 1024]
    rounded half up.  Its digits are padded to three and the point is set
    before the last two. *)
Definition toFixed2_KB (size : N) : jsstring :=
  let n := ((size * 100 + 512) / 1024)%N in
  let m := decimal n in
  let m := repeat "0"%char (3 - length m) ++ m in
  firstn (length m - 2) m ++ str "." ++ skipn (length m - 2) m.

Definition medicalTermsOf (lowerContent : jsstring) : list jsstring :=
  filter (fun term => includes lowerContent (toLowerCase term)) MEDICAL_TERMS.conditions.

Definition potentialConditionsOf (lowerContent : jsstring) (terms : list jsstring)
    : list PotentialCondition :=
  map (fun condition => mkCondition condition (calculateConfidence lowerContent condition))
      terms.

Definition riskFactorsOf (lowerContent : jsstring) : list jsstring :=
  filter (fun factor => includes lowerContent (toLowerCase factor)) MEDICAL_TERMS.riskFactors.

Section Render.

(** The bindings a render of the component closes over.  A state setter
    does not change them: the functions of one render read the [reportFile]
    of that render, whatever was set since. *)
Variable reportFile : option File.

(** The record [performDetailedAnalysis] hands to [setAnalysisResults], in
    the order the source evaluates it. *)
Definition analysisOf (content : jsstring) : result AnalysisResult :=
  let lowerContent := toLowerCase content in
  bindR (extractKeyInformations content) (fun keyInformations =>
  let medicalTerms := medicalTermsOf lowerContent in
  let potentialConditions := potentialConditionsOf lowerContent medicalTerms in
  let riskFactors := riskFactorsOf lowerContent in
  let recommendations := generateRecommendations medicalTerms riskFactors in
  match reportFile with
  | None => Throw (TypeError_read "null" "type")
  | Some f =>
      Ok (mkResult (type f) (toFixed2_KB (size f) ++ str " KB")
            keyInformations medicalTerms potentialConditions riskFactors
            recommendations)
  end).

End Render.

(** ** The component *)

Record State : Type := mkComponent {
  reportFile : option File;
  fileContent : jsstring;
  analysisResults : AnalysisResult;
  isAnalyzing : bool
}.

(** The calls and messages of an upload, in the order they happen. *)
Inductive Event : Type :=
| Call_parseTextFile
| Call_parseCSV
| Call_parseExcel
| Call_performDetailedAnalysis (content : jsstring)
| Console_error (message : jsstring)
| Alert (message : jsstring).

Record World : Type := mkWorld {
  state : State;
  trace : list Event
}.

(** Computations on the component: a result or an exception, and the world
    after it. *)
Definition M (A : Type) : Type := World -> result A * World.

Definition ret (A : Type) (a : A) : M A := fun w => (Ok a, w).

Definition bind (A B : Type) (m : M A) (f : A -> M B) : M B :=
  fun w =>
    match m w with
    | (Ok a, w') => f a w'
    | (Throw e, w') => (Throw e, w')
    | (Pending, w') => (Pending, w')
    end.

Definition throw (A : Type) (message : jsstring) : M A := fun w => (Throw message, w).

Arguments throw {A} message.

Definition lift (A : Type) (r : result A) : M A := fun w => (r, w).

Definition emit (e : Event) : M unit :=
  fun w => (Ok tt, mkWorld (state w) (trace w ++ [e])).

Definition update (f : State -> State) : M unit :=
  fun w => (Ok tt, mkWorld (f (state w)) (trace w)).

(** [try { body } catch (error) { handler(error.message) } finally { final }];
    a block that waits for ever leaves the blocks after it unrun. *)
Definition try_catch_finally (body : M unit) (handler : jsstring -> M unit)
    (final : M unit) : M unit :=
  fun w =>
    match body w with
    | (Ok tt, w') => final w'
    | (Throw e, w') =>
        match handler e w' with
        | (Ok tt, w'') => final w''
        | (Throw e', w'') =>
            match final w'' with
            | (Ok tt, w''') => (Throw e', w''')
            | (Throw e'', w''') => (Throw e'', w''')
            | (Pending, w''') => (Pending, w''')
            end
        | (Pending, w'') => (Pending, w'')
        end
    | (Pending, w') => (Pending, w')
    end.

Declare Scope comp_scope.
Delimit Scope comp_scope with comp.
Notation "x <- m ;; k" := (bind m (fun x => k))
  (at level 61, m at next level, right associativity) : comp_scope.
Notation "m ;; k" := (bind m (fun _ => k))
  (at level 61, right associativity) : comp_scope.

Definition setReportFile (f : File) : M unit :=
  update (fun s => mkComponent (Some f) (fileContent s) (analysisResults s) (isAnalyzing s)).

Definition setFileContent (c : jsstring) : M unit :=
  update (fun s => mkComponent (reportFile s) c (analysisResults s) (isAnalyzing s)).

Definition setAnalysisResults (r : AnalysisResult) : M unit :=
  update (fun s => mkComponent (reportFile s) (fileContent s) r (isAnalyzing s)).

Definition setIsAnalyzing (b : bool) : M unit :=
  update (fun s => mkComponent (reportFile s) (fileContent s) (analysisResults s) b).

(** [useState] of [analysisResults] *)
Definition initialResults : AnalysisResult := mkResult [] [] [] [] [] [] [].

Definition initialState : State := mkComponent None [] initialResults false.

Definition initialWorld : World := mkWorld initialState [].

(** The content for the rows Papa Parse hands to [complete]. *)
Definition csvContent (rows : list (list jsstring)) : jsstring :=
  join [LF] (map (fun row => join (str " ") row) rows).

(** [content += XLSX.utils.sheet_to_csv(worksheet)] over the sheets. *)
Definition excelContent (sheets : list jsstring) : jsstring :=
  fold_left (fun content csv => content ++ csv) sheets [].

(** [file.name.split('.').pop().toLowerCase()] *)
Definition fileExtension (file : File) : result jsstring :=
  match pop (split "."%char (name file)) with
  | Some e => Ok (toLowerCase e)
  | None => Throw (TypeError_read "undefined" "toLowerCase")
  end.

Definition unsupportedMessage : jsstring :=
  str "Unsupported file type. Please use TXT, CSV, or Excel files.".

(** Strict equality of strings. *)
Fixpoint strEqb (a b : jsstring) : bool :=
  match a, b with
  | [], [] => true
  | x :: a', y :: b' => Ascii.eqb x y && strEqb a' b'
  | _, _ => false
  end.

Section Upload.

(** What the promises of the readers outside the repository come to:
    [FileReader] for text, Papa Parse for the rows of a CSV file, XLSX for
    the CSV text of each sheet in the order of [SheetNames].  A promise is
    resolved ([Ok]) or rejected ([Throw]) by the callbacks the source sets
    ([onload], [onerror], [complete], [error]), and stays [Pending] when
    none of them settles it: for a workbook that is when [XLSX.read] or
    [sheet_to_csv] throws inside [reader.onload], where the exception leaves
    the callback and neither [resolve] nor [reject] is called. *)
Variable readAsText : File -> result jsstring.
Variable Papa_parse : File -> result (list (list jsstring)).
Variable XLSX_sheets : File -> result (list jsstring).

(** The [reportFile] of the render the handlers belong to. *)
Variable renderedFile : option File.

Local Open Scope comp_scope.

Definition parseTextFile (file : File) : M jsstring :=
  emit Call_parseTextFile ;; lift (readAsText file).

Definition parseCSV (file : File) : M jsstring :=
  emit Call_parseCSV ;;
  rows <- lift (Papa_parse file) ;;
  ret (csvContent rows).

Definition parseExcel (file : File) : M jsstring :=
  emit Call_parseExcel ;;
  sheets <- lift (XLSX_sheets file) ;;
  ret (excelContent sheets).

Definition performDetailedAnalysis (content : jsstring) : M unit :=
  emit (Call_performDetailedAnalysis content) ;;
  r <- lift (analysisOf renderedFile content) ;;
  setAnalysisResults r.

Definition parseFile (file : File) : M unit :=
  setIsAnalyzing true ;;
  try_catch_finally
    (fileExtension <- lift (fileExtension file) ;;
     content <-
       (if strEqb fileExtension (str "txt") then parseTextFile file
        else if strEqb fileExtension (str "csv") then parseCSV file
        else if strEqb fileExtension (str "xlsx") || strEqb fileExtension (str "xls")
             then parseExcel file
        else throw unsupportedMessage) ;;
     setFileContent content ;;
     performDetailedAnalysis content)
    (fun message =>
       emit (Console_error (str "File parsing error: " ++ message)) ;;
       emit (Alert (str "Error parsing file: " ++ message)))
    (setIsAnalyzing false).

(** [event.target.files[0]] is [None] when no file was chosen. *)
Definition handleFileUpload (file : option File) : M unit :=
  match file with
  | Some f => setReportFile f ;; parseFile f
  | None => ret tt
  end.

End Upload.

Section Session.

Variable readAsText : File -> result jsstring.
Variable Papa_parse : File -> result (list (list jsstring)).
Variable XLSX_sheets : File -> result (list jsstring).

(** A change event of the file input: the handler of the current render
    runs, with the [reportFile] the state held when that render was made. *)
Definition upload (file : File) (w : World) : World :=
  snd (handleFileUpload readAsText Papa_parse XLSX_sheets
         (reportFile (state w)) (Some file) w).

End Session.

(** ** Notions the properties are stated with *)

(** [t] occurs in [s]. *)
Definition isSubstring (t s : jsstring) : Prop :=
  exists pre post, s = pre ++ t ++ post.

(** [l1] is [l2] with some elements left out, the order kept. *)
Inductive subsequence (A : Type) : list A -> list A -> Prop :=
| subsequence_nil : subsequence [] []
| subsequence_skip : forall x l1 l2, subsequence l1 l2 -> subsequence l1 (x :: l2)
| subsequence_keep : forall x l1 l2, subsequence l1 l2 -> subsequence (x :: l1) (x :: l2).

(** Two code units that differ by case at most. *)
Definition sameLetter (a b : ascii) : bool := Ascii.eqb (lowerChar a) (lowerChar b).

(** [t] is found at the start of [s], case apart. *)
Fixpoint startsWith_ci (s t : jsstring) {struct t} : bool :=
  match t, s with
  | [], _ => true
  | _ :: _, [] => false
  | a :: t', b :: s' => sameLetter b a && startsWith_ci s' t'
  end.

(** The occurrences of [t] in [s], case apart, counted from left to right,
    each one sought from the end of the one before: [skip] code units of [s]
    still belong to the occurrence counted last. *)
Fixpoint occurrencesFrom (t : jsstring) (skip : nat) (s : jsstring) : nat :=
  match s with
  | [] => 0
  | _ :: s' =>
      match skip with
      | S n => occurrencesFrom t n s'
      | 0 =>
          if startsWith_ci s t then S (occurrencesFrom t (length t - 1) s')
          else occurrencesFrom t 0 s'
      end
  end.

Definition occurrences (t s : jsstring) : nat := occurrencesFrom t 0 s.

(** The indices of [s] at which [t] is found, case apart, counted all,
    overlapping or not. *)
Fixpoint positions (t s : jsstring) : nat :=
  match s with
  | [] => 0
  | _ :: s' => (if startsWith_ci s t then 1 else 0) + positions t s'
  end.

(** [t] moved [k] to the right agrees with [t] where the two overlap. *)
Definition selfOverlap (t : jsstring) (k : nat) : bool :=
  startsWith_ci (skipn k t) (firstn (length t - k) t).

(** No two occurrences of [t] can overlap. *)
Definition unbordered (t : jsstring) : bool :=
  forallb (fun k => negb (selfOverlap t k)) (seq 1 (length t - 1)).

(** The elements of [l] with [sep] between them. *)
Fixpoint joined (sep : jsstring) (l : list jsstring) : jsstring :=
  match l with
  | [] => []
  | x :: l' =>
      match l' with
      | [] => x
      | _ :: _ => x ++ sep ++ joined sep l'
      end
  end.

(** The kinds of lines of a recommendations list. *)
Definition isSpecialistLine (line : jsstring) : bool :=
  startsWith line (str "Consult a specialist for detailed evaluation of: ").

Definition isLifestyleLine (line : jsstring) : bool :=
  startsWith line (str "Consider lifestyle modifications to address risk factors: ")
  || strEqb line checkUpLine.

Definition countLines (p : jsstring -> bool) (l : list jsstring) : nat :=
  length (filter p l).

(** A pattern whose every match goes through the capture group. *)
Fixpoint definesGroup (r : regex) : bool :=
  match r with
  | Group _ => true
  | Seq r1 r2 => definesGroup r1 || definesGroup r2
  | _ => false
  end.

(** The value of a label, from the match of its pattern alone. *)
Definition valueOf (content : jsstring) (r : regex) : jsstring :=
  match String_match content r with
  | None => str "Not Found"
  | Some m =>
      match match1 m with
      | Some g => trim g
      | None => []
      end
  end.

Definition labels : list jsstring :=
  map str ["Patient Name"; "Age"; "Gender"; "Date"]%string.

(** The four lines of the report of the example. *)
Definition janeDoe : jsstring :=
  str "Patient Name: Jane Doe" ++ [LF] ++ str "Age: 47" ++ [LF] ++
  str "Gender: Female" ++ [LF] ++ str "Date: 04/02/1990".

Definition janeDoeValues : list jsstring :=
  map str ["Jane Doe"; "47"; "Female"; "04/02/1990"]%string.

(** A content with six occurrences of a term. *)
Definition sixTimes : jsstring :=
  str "Diabetes (type 2 diabetes). DIABETES, diabetes; diabetes: diabetes".

(** The same text after a page header. *)
Definition pagedReport : jsstring := str "Page: 2" ++ [LF] ++ janeDoe.

(** The extension of a file: the last of the parts of its name between
    dots, in lower case. *)
Definition extension (file : File) : jsstring :=
  toLowerCase (last (split "."%char (name file)) []).

(** What the [catch] and [finally] blocks of [parseFile] leave after the
    message [e]: the file and the content set so far, the results as they
    were, and the message on the console and in an alert. *)
Definition failed (file : File) (content : jsstring) (w : World) (events : list Event)
    (e : jsstring) : World :=
  mkWorld (mkComponent (Some file) content (analysisResults (state w)) false)
          (trace w ++ events ++
             [Console_error (str "File parsing error: " ++ e);
              Alert (str "Error parsing file: " ++ e)]).

(** What an upload leaves while the promise of its reader is pending: the
    file is set and the component is analyzing; nothing else has run. *)
Definition waiting (file : File) (w : World) (events : list Event) : World :=
  mkWorld (mkComponent (Some file) (fileContent (state w)) (analysisResults (state w)) true)
          (trace w ++ events).

(** The supported extensions. *)
Definition supported : list jsstring := map str ["txt"; "csv"; "xlsx"; "xls"]%string.

(** A text file and readers for the examples. *)
Definition reportTxt : File := mkFile (str "report.txt") (str "text/plain") 20 [].

Definition scanPdf : File := mkFile (str "scan.PDF") (str "application/pdf") 2048 [].

Definition notesTxt : File := mkFile (str "notes.txt") (str "") 3 [].

Definition textOf (content : jsstring) (f : File) : result jsstring := Ok content.

Definition rowsOf (rows : list (list jsstring)) (f : File) : result (list (list jsstring)) :=
  Ok rows.

Definition sheetsOf (sheets : list jsstring) (f : File) : result (list jsstring) :=
  Ok sheets.

(** ** The view

    What the component returns for a state: the label beside the upload
    button and one of the panels below it. *)

Inductive RiskSection : Type :=
| RiskList (factors : list jsstring)
| NoRiskFactors.

Inductive Panel : Type :=
| AnalyzingPanel
| ResultsPanel (keyInformations : list KeyInformation)
               (potentialConditions : list PotentialCondition)
               (risks : RiskSection)
               (recommendations : list jsstring)
| NoInformationPanel
| NoPanel.

Record View : Type := mkView {
  fileLabel : option jsstring;
  panel : Panel
}.

(** The [return] of the component: the label
    [{reportFile.name} - {(reportFile.size / 1024).toFixed(2)} KB] when a
    file is set, and the chain of conditionals on [isAnalyzing],
    [analysisResults.medicalTerms.length > 0] and [reportFile]. *)
Definition render (s : State) : View :=
  mkView
    (match reportFile s with
     | Some f => Some (name f ++ str " - " ++ toFixed2_KB (size f) ++ str " KB")
     | None => None
     end)
    (if isAnalyzing s then AnalyzingPanel
     else if 0 <? length (medicalTerms (analysisResults s)) then
       ResultsPanel
         (keyInformations (analysisResults s))
         (potentialConditions (analysisResults s))
         (if 0 <? length (riskFactors (analysisResults s))
          then RiskList (riskFactors (analysisResults s))
          else NoRiskFactors)
         (recommendations (analysisResults s))
     else match reportFile s with
          | Some _ => NoInformationPanel
          | None => NoPanel
          end).

(** ** Further notions *)

(** The words of a pattern. *)
Fixpoint matches (r : regex) (s : jsstring) : Prop :=
  match r with
  | Empty => s = []
  | Atom p => exists c, s = [c] /\ p c = true
  | Rep p lo hi =>
      Forall (fun c => p c = true) s /\ lo <= length s
      /\ match hi with Some h => length s <= h | None => True end
  | Seq r1 r2 => exists s1 s2, s = s1 ++ s2 /\ matches r1 s1 /\ matches r2 s2
  | Group r1 => matches r1 s
  end.

(** The pattern of the capture group. *)
Fixpoint groupOf (r : regex) : option regex :=
  match r with
  | Group r1 => Some r1
  | Seq r1 r2 =>
      match groupOf r1 with
      | Some g => Some g
      | None => groupOf r2
      end
  | _ => None
  end.

(** The number of groups of a pattern. *)
Fixpoint groups (r : regex) : nat :=
  match r with
  | Group r1 => S (groups r1)
  | Seq r1 r2 => groups r1 + groups r2
  | _ => 0
  end.

(** The quantifiers of a pattern have their bounds in order; a pattern text
    with [{lo,hi}] out of order is a syntax error. *)
Fixpoint boundsInOrder (r : regex) : bool :=
  match r with
  | Rep _ lo (Some h) => lo <=? h
  | Seq r1 r2 => boundsInOrder r1 && boundsInOrder r2
  | Group r1 => boundsInOrder r1
  | _ => true
  end.

(** The classes of a pattern do not tell a capital from its small letter. *)
Fixpoint caseBlind (r : regex) : Prop :=
  match r with
  | Empty => True
  | Atom p | Rep p _ _ => forall c, p (lowerChar c) = p c
  | Seq r1 r2 => caseBlind r1 /\ caseBlind r2
  | Group r1 => caseBlind r1
  end.

Definition lowerState (x : MatchState) : MatchState :=
  mkState (endIndex x) (toLowerCase (rest x)) (capture x).

(** A string without white space at either end. *)
Definition trimmed (s : jsstring) : Prop := trimStart s = s /\ trimEnd s = s.

Definition isSeparator (c : ascii) : bool := oneOf "-/" c.

(** The shape of a date: one or two digits, a separator, one or two digits,
    a separator, two to four digits. *)
Definition dateShaped (v : jsstring) : Prop :=
  exists d1 s1 d2 s2 d3,
    v = d1 ++ [s1] ++ d2 ++ [s2] ++ d3
    /\ Forall (fun c => digit c = true) d1 /\ 1 <= length d1 <= 2
    /\ isSeparator s1 = true
    /\ Forall (fun c => digit c = true) d2 /\ 1 <= length d2 <= 2
    /\ isSeparator s2 = true
    /\ Forall (fun c => digit c = true) d3 /\ 2 <= length d3 <= 4.

(** The uploads of a session, one after the other: each is over, or waits
    for its reader without end, before the next begins. *)
Fixpoint uploadAll (readAsText : File -> result jsstring)
    (Papa_parse : File -> result (list (list jsstring)))
    (XLSX_sheets : File -> result (list jsstring))
    (files : list File) (w : World) : World :=
  match files with
  | [] => w
  | f :: files' =>
      uploadAll readAsText Papa_parse XLSX_sheets files'
        (upload readAsText Papa_parse XLSX_sheets f w)
  end.

(** What the reader of a file comes to, by the extension of its name: the
    call made and the content, the message or the wait without end; [None]
    for an extension without a reader. *)
Definition readerOutcome (readAsText : File -> result jsstring)
    (Papa_parse : File -> result (list (list jsstring)))
    (XLSX_sheets : File -> result (list jsstring))
    (file : File) : option (Event * result jsstring) :=
  if strEqb (extension file) (str "txt") then
    Some (Call_parseTextFile, readAsText file)
  else if strEqb (extension file) (str "csv") then
    Some (Call_parseCSV,
          match Papa_parse file with
          | Ok rows => Ok (csvContent rows)
          | Throw e => Throw e
          | Pending => Pending
          end)
  else if strEqb (extension file) (str "xlsx") || strEqb (extension file) (str "xls") then
    Some (Call_parseExcel,
          match XLSX_sheets file with
          | Ok sheets => Ok (excelContent sheets)
          | Throw e => Throw e
          | Pending => Pending
          end)
  else None.

(** A CSV file, and a reader that fails. *)
Definition dataCsv : File := mkFile (str "data.csv") (str "text/csv") 512 [].

Definition rowsFailing (e : jsstring) (f : File) : result (list (list jsstring)) := Throw e.

(** The file uploaded last. *)
Definition lastUploaded (files : list File) : option File := last (map Some files) None.

(** The promise of the reader of a file is never settled. *)
Definition pendingRead (readAsText : File -> result jsstring)
    (Papa_parse : File -> result (list (list jsstring)))
    (XLSX_sheets : File -> result (list jsstring))
    (file : File) : bool :=
  match readerOutcome readAsText Papa_parse XLSX_sheets file with
  | Some (_, Pending) => true
  | _ => false
  end.

(** The upload made last waits for its reader without end. *)
Definition stuck (readAsText : File -> result jsstring)
    (Papa_parse : File -> result (list (list jsstring)))
    (XLSX_sheets : File -> result (list jsstring))
    (files : list File) : bool :=
  match lastUploaded files with
  | Some f => pendingRead readAsText Papa_parse XLSX_sheets f
  | None => false
  end.

(** What the session keeps after the uploads of [files]: the component is
    analyzing exactly when the upload made last waits for its reader, the
    file of the state is the one uploaded last, and the results are the
    initial ones or the record of an analysis of the content of the state,
    made with one of the files. *)
Definition sessionInvariant (readAsText : File -> result jsstring)
    (Papa_parse : File -> result (list (list jsstring)))
    (XLSX_sheets : File -> result (list jsstring))
    (files : list File) (s : State) : Prop :=
  isAnalyzing s = stuck readAsText Papa_parse XLSX_sheets files
  /\ reportFile s = lastUploaded files
  /\ (analysisResults s = initialResults
      \/ exists g, In g files /\ analysisOf (Some g) (fileContent s) = Ok (analysisResults s)).

(** ** Lines of a report *)

Definition CR : ascii := "013"%char.

(** What follows a line: the end of the text, a line feed, or a carriage
    return and a line feed. *)
Definition lineEnd (b : jsstring) : Prop :=
  b = [] \/ (exists b', b = LF :: b') \/ (exists b', b = CR :: LF :: b').

(** No word of the pattern stands in the content at an index before the end
    of [a]. *)
Definition noWordBefore (r : regex) (a content : jsstring) : Prop :=
  forall p w q, content = p ++ w ++ q -> matches r w -> length a <= length p.

(** The content holds the line, ended as a line is, and no word of the
    pattern stands before it. *)
Definition holdsLine (r : regex) (line content : jsstring) : Prop :=
  exists a b, content = a ++ line ++ b /\ lineEnd b /\ noWordBefore r a content.

(** The pattern has no match at the first [n] indices of the content. *)
Definition noMatchBefore (r : regex) (n : nat) (content : jsstring) : bool :=
  forallb (fun i => match matchAt r i (skipn i content) with
                    | None => true
                    | Some _ => false
                    end)
          (seq 0 n).

(** A state of the matcher with its indices moved by [d]. *)
Definition shiftCapture (d : nat) (cap : option (nat * nat)) : option (nat * nat) :=
  option_map (fun be => (d + fst be, d + snd be)) cap.

Definition shiftState (d : nat) (x : MatchState) : MatchState :=
  mkState (d + endIndex x) (rest x) (shiftCapture d (capture x)).

(** The four lines under a heading, with the line ends of a text file made
    on Windows. *)
Definition headedReport : jsstring :=
  str "Medical Report" ++ [CR; LF] ++
  str "Patient Name: Jane Doe" ++ [CR; LF] ++ str "Age: 47" ++ [CR; LF] ++
  str "Gender: Female" ++ [CR; LF] ++ str "Date: 04/02/1990" ++ [CR; LF].

(** A workbook [XLSX.read] cannot read: the promise of its reader is never
    settled. *)
Definition damagedXlsx : File :=
  mkFile (str "zip.xlsx")
    (str "application/vnd.openxmlformats-officedocument.spreadsheetml.sheet") 4096 [].

Definition sheetsPending (f : File) : result (list jsstring) := Pending.

(** ** Code units *)

Unset Implicit Arguments.

Lemma canonicalize_lowerChar (c : ascii) : canonicalize (lowerChar c) = canonicalize c.
Proof. destruct c as [[] [] [] [] [] [] [] []]; reflexivity. Qed.

Lemma lowerChar_canonicalize (c : ascii) : lowerChar (canonicalize c) = lowerChar c.
Proof. destruct c as [[] [] [] [] [] [] [] []]; reflexivity. Qed.

Lemma lowerChar_idem (c : ascii) : lowerChar (lowerChar c) = lowerChar c.
Proof. destruct c as [[] [] [] [] [] [] [] []]; reflexivity. Qed.

(** The folding of the [i] flag and the comparison of lower-cased code units
    agree. *)
Lemma canonicalize_sameLetter (a b : ascii) :
  Ascii.eqb (canonicalize a) (canonicalize b) = sameLetter a b.
Proof.
  unfold sameLetter.
  destruct (Ascii.eqb_spec (canonicalize a) (canonicalize b)) as [E | E];
    destruct (Ascii.eqb_spec (lowerChar a) (lowerChar b)) as [F | F]; try reflexivity.
  - exfalso; apply F.
    rewrite <- (lowerChar_canonicalize a), <- (lowerChar_canonicalize b), E; reflexivity.
  - exfalso; apply E.
    rewrite <- (canonicalize_lowerChar a), <- (canonicalize_lowerChar b), F; reflexivity.
Qed.

Lemma sameLetter_lowerChar (a b : ascii) : sameLetter (lowerChar a) b = sameLetter a b.
Proof. unfold sameLetter; rewrite lowerChar_idem; reflexivity. Qed.

(** ** Substrings *)

Lemma startsWith_app (t post : jsstring) : startsWith (t ++ post) t = true.
Proof.
  induction t as [| a t IH]; simpl.
  - reflexivity.
  - rewrite Ascii.eqb_refl; exact IH.
Qed.

Lemma startsWith_prefix (s t : jsstring) :
  startsWith s t = true -> exists post, s = t ++ post.
Proof.
  revert s; induction t as [| a t IH]; intros s H.
  - exists s; reflexivity.
  - destruct s as [| b s]; simpl in H; [discriminate |].
    apply andb_true_iff in H; destruct H as [Hab Hs].
    apply Ascii.eqb_eq in Hab; subst b.
    destruct (IH _ Hs) as [post ->].
    exists post; reflexivity.
Qed.

Lemma includes_isSubstring (s t : jsstring) :
  includes s t = true <-> isSubstring t s.
Proof.
  split.
  - induction s as [| c s IH]; simpl; intros H.
    + rewrite orb_false_r in H.
      destruct (startsWith_prefix _ _ H) as [post E].
      exists [], post; exact E.
    + apply orb_true_iff in H; destruct H as [H | H].
      * destruct (startsWith_prefix _ _ H) as [post E].
        exists [], post; exact E.
      * destruct (IH H) as (pre & post & E).
        exists (c :: pre), post; rewrite E; reflexivity.
  - intros (pre & post & ->).
    induction pre as [| c pre IH].
    + simpl app.
      destruct (t ++ post) eqn:E; simpl; rewrite <- E, startsWith_app; reflexivity.
    + simpl; rewrite IH; apply orb_true_r.
Qed.

Lemma subsequence_filter (A : Type) (p : A -> bool) (l : list A) :
  subsequence (filter p l) l.
Proof.
  induction l as [| x l IH]; simpl.
  - constructor.
  - destruct (p x); constructor; exact IH.
Qed.

Lemma subsequence_In (A : Type) (l1 l2 : list A) :
  subsequence l1 l2 -> forall x, In x l1 -> In x l2.
Proof.
  induction 1 as [| y l1 l2 _ IH | y l1 l2 _ IH]; intros x Hx.
  - exact Hx.
  - right; apply IH; exact Hx.
  - destruct Hx as [-> | Hx]; [left; reflexivity | right; apply IH; exact Hx].
Qed.

Lemma conditions_lower : Forall (fun t => toLowerCase t = t) MEDICAL_TERMS.conditions.
Proof. repeat constructor. Qed.

Lemma riskFactorTerms_lower : Forall (fun t => toLowerCase t = t) MEDICAL_TERMS.riskFactors.
Proof. repeat constructor. Qed.

Lemma conditions_NoDup : NoDup MEDICAL_TERMS.conditions.
Proof. vm_compute; repeat constructor; simpl; intuition discriminate. Qed.

Lemma riskFactorTerms_NoDup : NoDup MEDICAL_TERMS.riskFactors.
Proof. vm_compute; repeat constructor; simpl; intuition discriminate. Qed.

Lemma analysisOf_fields (f : File) (content : jsstring) (r : AnalysisResult) :
  analysisOf (Some f) content = Ok r ->
  fileType r = type f /\
  fileSize r = toFixed2_KB (size f) ++ str " KB" /\
  medicalTerms r = medicalTermsOf (toLowerCase content) /\
  potentialConditions r =
    potentialConditionsOf (toLowerCase content) (medicalTermsOf (toLowerCase content)) /\
  riskFactors r = riskFactorsOf (toLowerCase content) /\
  recommendations r =
    generateRecommendations (medicalTermsOf (toLowerCase content))
      (riskFactorsOf (toLowerCase content)).
Proof.
  unfold analysisOf; destruct (extractKeyInformations content); simpl; intros H.
  - injection H as <-; simpl; repeat split; reflexivity.
  - discriminate H.
  - discriminate H.
Qed.

(** ** The matcher *)

Lemma repeatMatcher_continues (p : ascii -> bool) (k : Continuation)
    (cap : option (nat * nat)) (z : MatchState) :
  forall s lo hi i,
    repeatMatcher p lo hi i s cap k = Some z ->
    exists i' s', k (mkState i' s' cap) = Some z.
Proof.
  assert (Stop : forall lo i s,
             (if lo =? 0 then k (mkState i s cap) else None) = Some z ->
             exists i' s', k (mkState i' s' cap) = Some z).
  { intros lo i s H; destruct (lo =? 0); [eauto | discriminate H]. }
  induction s as [| c s IH]; intros lo hi i H.
  - destruct hi as [[| h] |]; simpl in H; eauto.
  - destruct hi as [[| h] |]; simpl in H; [eauto | |];
      (destruct (p c);
       [ match type of H with
         | match ?m with _ => _ end = _ => destruct m eqn:E
         end;
         [ injection H as ->; eapply IH; exact E | eapply Stop; exact H ]
       | eapply Stop; exact H ]).
Qed.

(** A match calls its continuation; a capture is kept, and a pattern that
    goes through the group has set it by then. *)
Lemma matcher_continues (r : regex) :
  forall x k z,
    matcher r x k = Some z ->
    exists y, k y = Some z
              /\ (capture x <> None -> capture y <> None)
              /\ (definesGroup r = true -> capture y <> None).
Proof.
  induction r as [| p | p lo hi | r1 IH1 r2 IH2 | r IH]; intros x k z H; simpl in H.
  - exists x; repeat split; [exact H | auto | discriminate].
  - destruct (rest x) as [| c s']; [discriminate H |].
    destruct (p c); [| discriminate H].
    eexists; repeat split; [exact H | auto | discriminate].
  - destruct (repeatMatcher_continues _ _ _ _ _ _ _ _ H) as (i' & s' & K).
    eexists; repeat split; [exact K | auto | discriminate].
  - destruct (IH1 _ _ _ H) as (y1 & K1 & Keep1 & Set1).
    destruct (IH2 _ _ _ K1) as (y2 & K2 & Keep2 & Set2).
    exists y2; repeat split; [exact K2 | auto |].
    simpl; intros D; apply orb_true_iff in D; destruct D; auto.
  - destruct (IH _ _ _ H) as (y & K & _ & _).
    eexists; repeat split; [exact K | simpl; discriminate | simpl; discriminate].
Qed.

Lemma search_capture (r : regex) :
  definesGroup r = true ->
  forall s i j y, search r i s = Some (j, y) -> capture y <> None.
Proof.
  intros D; induction s as [| c s IH]; intros i j y H; simpl in H;
    destruct (matchAt r i _) eqn:E.
  - injection H as _ <-.
    destruct (matcher_continues _ _ _ _ E) as (y & K & _ & Set1).
    injection K as <-; auto.
  - discriminate H.
  - injection H as _ <-.
    destruct (matcher_continues _ _ _ _ E) as (y & K & _ & Set1).
    injection K as <-; auto.
  - eapply IH; exact H.
Qed.

Lemma patternValue_valueOf (content : jsstring) (r : regex) :
  definesGroup r = true -> patternValue content r = Ok (valueOf content r).
Proof.
  intros D; unfold patternValue, valueOf, String_match.
  destruct (search r 0 content) as [[i y] |] eqn:E; [| reflexivity].
  pose proof (search_capture r D _ _ _ _ E) as C.
  simpl; destruct (capture y); [reflexivity | contradiction].
Qed.

(** Key-information extraction raises nothing: each pattern has its group
    on every path. *)
Lemma extractKeyInformations_total (content : jsstring) :
  extractKeyInformations content =
  Ok (map (fun pattern =>
             mkInfo (pattern_label pattern) (valueOf content (pattern_regex pattern)))
          keyPatterns).
Proof.
  unfold extractKeyInformations, keyPatterns; simpl.
  rewrite !patternValue_valueOf by reflexivity.
  reflexivity.
Qed.

Lemma startsWith_ci_lower (t : jsstring) :
  forall s, startsWith_ci (toLowerCase s) t = startsWith_ci s t.
Proof.
  induction t as [| a t IH]; intros s; [reflexivity |].
  destruct s as [| b s]; simpl; [reflexivity |].
  rewrite sameLetter_lowerChar, IH; reflexivity.
Qed.

Lemma startsWith_lower (t : jsstring) :
  toLowerCase t = t ->
  forall s, startsWith (toLowerCase s) t = startsWith_ci s t.
Proof.
  induction t as [| a t IH]; intros L s; [reflexivity |].
  injection L as La Lt.
  destruct s as [| b s]; simpl; [reflexivity |].
  rewrite (IH Lt); f_equal.
  unfold sameLetter; rewrite La.
  destruct (Ascii.eqb_spec a (lowerChar b)) as [-> | N].
  - symmetry; apply Ascii.eqb_refl.
  - symmetry; apply Ascii.eqb_neq; congruence.
Qed.

(** A pattern without syntax characters matches its own text, case apart. *)
Lemma matcher_literal (t : jsstring) :
  forall x k,
    matcher (literal t) x k =
    if startsWith_ci (rest x) t
    then k (mkState (endIndex x + length t) (skipn (length t) (rest x)) (capture x))
    else None.
Proof.
  induction t as [| a t IH]; intros x k; simpl.
  - rewrite Nat.add_0_r; destruct x; reflexivity.
  - destruct (rest x) as [| c s']; [reflexivity |].
    rewrite canonicalize_sameLetter.
    destruct (sameLetter c a); simpl; [| reflexivity].
    rewrite IH; simpl.
    rewrite Nat.add_succ_r; reflexivity.
Qed.

Lemma matchAt_literal (t : jsstring) (i : nat) (s : jsstring) :
  matchAt (literal t) i s =
  if startsWith_ci s t then Some (mkState (i + length t) (skipn (length t) s) None)
  else None.
Proof. unfold matchAt; rewrite matcher_literal; reflexivity. Qed.

(** The global match of a literal pattern on the lower-cased content finds
    the occurrences of the term in the content. *)
Lemma scan_literal (t : jsstring) :
  t <> [] ->
  forall s skip i,
    length (scan (literal t) skip i (toLowerCase s)) = occurrencesFrom t skip s.
Proof.
  intros Ht; induction s as [| c s IH]; intros skip i.
  - destruct skip; simpl; [| reflexivity].
    rewrite matchAt_literal.
    destruct t; [contradiction | reflexivity].
  - destruct skip as [| n].
    + change (toLowerCase (c :: s)) with (lowerChar c :: toLowerCase s).
      cbn [scan occurrencesFrom].
      rewrite matchAt_literal.
      change (lowerChar c :: toLowerCase s) with (toLowerCase (c :: s)).
      rewrite startsWith_ci_lower.
      destruct (startsWith_ci (c :: s) t).
      * cbn [length endIndex]; rewrite IH.
        replace (pred (i + length t - i)) with (length t - 1) by lia.
        reflexivity.
      * apply IH.
    + simpl; apply IH.
Qed.

Lemma calculateConfidence_occurrences (content term : jsstring) :
  term <> [] ->
  calculateConfidence (toLowerCase content) term =
  Nat.min (20 * occurrences term content) 100.
Proof.
  intros Ht; unfold calculateConfidence, String_match_g, RegExp_gi, occurrences.
  rewrite <- (scan_literal term Ht content 0 0).
  destruct (scan (literal term) 0 0 (toLowerCase content)) as [| m l] eqn:E.
  - reflexivity.
  - rewrite length_map, Nat.mul_comm; reflexivity.
Qed.


Lemma includes_occurrences (t : jsstring) :
  t <> [] -> toLowerCase t = t ->
  forall s, includes (toLowerCase s) t = true -> 1 <= occurrences t s.
Proof.
  intros Ht L; unfold occurrences.
  induction s as [| c s IH]; intros H.
  - destruct t; [contradiction | discriminate H].
  - change (toLowerCase (c :: s)) with (lowerChar c :: toLowerCase s) in H.
    cbn [includes] in H.
    change (lowerChar c :: toLowerCase s) with (toLowerCase (c :: s)) in H.
    rewrite (startsWith_lower t L) in H.
    cbn [occurrencesFrom].
    destruct (startsWith_ci (c :: s) t); [lia | exact (IH H)].
Qed.

Lemma conditions_nonempty (term : jsstring) : In term MEDICAL_TERMS.conditions -> term <> [].
Proof.
  intros H E; subst term.
  vm_compute in H; repeat destruct H as [H | H]; try discriminate H; exact H.
Qed.

Lemma conditions_toLowerCase (term : jsstring) : In term MEDICAL_TERMS.conditions -> toLowerCase term = term.
Proof. intros H; exact (proj1 (Forall_forall _ _) conditions_lower term H). Qed.

Lemma riskFactorTerms_toLowerCase (factor : jsstring) :
  In factor MEDICAL_TERMS.riskFactors -> toLowerCase factor = factor.
Proof. intros H; exact (proj1 (Forall_forall _ _) riskFactorTerms_lower factor H). Qed.

(** No condition term has a syntax character: as a pattern each one denotes
    its own text. *)
Lemma conditions_literal :
  forallb (fun term => forallb (fun c => negb (isSyntaxCharacter c)) term) MEDICAL_TERMS.conditions = true.
Proof. reflexivity. Qed.

Lemma medicalTermsOf_In (lowerContent term : jsstring) :
  In term (medicalTermsOf lowerContent) <->
  In term MEDICAL_TERMS.conditions /\ isSubstring term lowerContent.
Proof.
  unfold medicalTermsOf; rewrite filter_In.
  split; intros [Hin H]; split; try exact Hin.
  - rewrite (conditions_toLowerCase _ Hin) in H; apply includes_isSubstring; exact H.
  - rewrite (conditions_toLowerCase _ Hin); apply includes_isSubstring; exact H.
Qed.

Lemma riskFactorsOf_In (lowerContent factor : jsstring) :
  In factor (riskFactorsOf lowerContent) <->
  In factor MEDICAL_TERMS.riskFactors /\ isSubstring factor lowerContent.
Proof.
  unfold riskFactorsOf; rewrite filter_In.
  split; intros [Hin H]; split; try exact Hin.
  - rewrite (riskFactorTerms_toLowerCase _ Hin) in H; apply includes_isSubstring; exact H.
  - rewrite (riskFactorTerms_toLowerCase _ Hin); apply includes_isSubstring; exact H.
Qed.

Lemma NoDup_filter_list (A : Type) (p : A -> bool) (l : list A) :
  NoDup l -> NoDup (filter p l).
Proof.
  induction 1 as [| x l Hx _ IH]; simpl; [constructor |].
  destruct (p x); [| exact IH].
  constructor; [| exact IH].
  intros Hin; apply Hx; apply filter_In in Hin; tauto.
Qed.

(** ** Occurrences that cannot overlap *)

Lemma startsWith_refl (s : jsstring) : startsWith s s = true.
Proof. rewrite <- (app_nil_r s) at 1; apply startsWith_app. Qed.

Lemma startsWith_ci_lowered (t : jsstring) :
  forall s, startsWith_ci s t = startsWith (toLowerCase s) (toLowerCase t).
Proof.
  induction t as [| a t IH]; intros s; [reflexivity |].
  destruct s as [| b s]; simpl; [reflexivity |].
  unfold sameLetter; rewrite IH, Ascii.eqb_sym; reflexivity.
Qed.

Lemma startsWith_ci_prefix (s t : jsstring) :
  startsWith_ci s t = true -> exists post, toLowerCase s = toLowerCase t ++ post.
Proof. rewrite startsWith_ci_lowered; apply startsWith_prefix. Qed.

Lemma overlap_lists (A : Type) (l p1 p2 : list A) (k : nat) :
  k <= length l ->
  skipn k (l ++ p1) = l ++ p2 ->
  skipn k l = firstn (length l - k) l.
Proof.
  intros Hk E.
  rewrite skipn_app in E.
  replace (k - length l) with 0 in E by lia; cbn [skipn] in E.
  apply (f_equal (firstn (length l - k))) in E.
  rewrite !firstn_app, length_skipn, Nat.sub_diag in E.
  replace (length l - k - length l) with 0 in E by lia.
  cbn [firstn] in E; rewrite !app_nil_r in E.
  rewrite <- E; symmetry; apply firstn_all2.
  rewrite length_skipn; lia.
Qed.

(** Two occurrences less than the length of [t] apart make [t] overlap
    itself. *)
Lemma occurrences_overlap (t s : jsstring) (k : nat) :
  k <= length t ->
  startsWith_ci s t = true ->
  startsWith_ci (skipn k s) t = true ->
  selfOverlap t k = true.
Proof.
  intros Hk H0 Hk'.
  destruct (startsWith_ci_prefix _ _ H0) as [p1 E1].
  destruct (startsWith_ci_prefix _ _ Hk') as [p2 E2].
  unfold toLowerCase in E1, E2; rewrite <- skipn_map, E1 in E2.
  unfold selfOverlap; rewrite startsWith_ci_lowered.
  unfold toLowerCase; rewrite <- skipn_map, <- firstn_map.
  rewrite <- (length_map lowerChar t) in Hk |- *.
  rewrite <- (overlap_lists _ _ p1 p2 k Hk E2).
  apply startsWith_refl.
Qed.

Lemma unbordered_apart (t s : jsstring) (j : nat) :
  unbordered t = true ->
  startsWith_ci s t = true ->
  j < length t - 1 ->
  startsWith_ci (skipn (S j) s) t = false.
Proof.
  intros U H0 Hj.
  destruct (startsWith_ci (skipn (S j) s) t) eqn:E; [| reflexivity].
  assert (O : selfOverlap t (S j) = true)
    by (apply (occurrences_overlap t s (S j)); [lia | exact H0 | exact E]).
  unfold unbordered in U; rewrite forallb_forall in U.
  assert (I : In (S j) (seq 1 (length t - 1))) by (apply in_seq; lia).
  specialize (U _ I); rewrite O in U; discriminate U.
Qed.

(** For a term that cannot overlap itself, the count from left to right is
    the count of all indices. *)
Lemma occurrencesFrom_positions (t : jsstring) :
  unbordered t = true ->
  forall s skip,
    (forall j, j < skip -> startsWith_ci (skipn j s) t = false) ->
    occurrencesFrom t skip s = positions t s.
Proof.
  intros U; induction s as [| c s IH]; intros skip H; [reflexivity |].
  cbn [occurrencesFrom positions].
  destruct skip as [| n].
  - destruct (startsWith_ci (c :: s) t) eqn:E.
    + rewrite IH; [reflexivity |].
      intros j Hj; exact (unbordered_apart t (c :: s) j U E Hj).
    + apply IH; intros j Hj; lia.
  - assert (H0 : startsWith_ci (c :: s) t = false) by (apply (H 0); lia).
    rewrite H0; cbn [Nat.add].
    apply IH; intros j Hj; apply (H (S j)); lia.
Qed.

Lemma occurrences_positions (t s : jsstring) :
  unbordered t = true -> occurrences t s = positions t s.
Proof.
  intros U; apply occurrencesFrom_positions; [exact U |].
  intros j Hj; lia.
Qed.

(** Every condition term but one is unbordered. *)
Lemma conditions_unbordered (term : jsstring) :
  In term MEDICAL_TERMS.conditions -> term <> str "asthma" -> unbordered term = true.
Proof.
  intros H N.
  vm_compute in H.
  repeat (destruct H as [<- | H]; [try reflexivity; exfalso; apply N; reflexivity |]).
  destruct H.
Qed.

(** The one that is not: where two copies share a letter, the global match
    finds the first only. *)
Lemma asthma_overlap :
  positions (str "asthma") (str "asthmasthma") = 2
  /\ occurrences (str "asthma") (str "asthmasthma") = 1
  /\ calculateConfidence (toLowerCase (str "asthmasthma")) (str "asthma") = 20.
Proof. repeat split. Qed.

(** ** The claims *)

(** C1: for a condition term the analyzer matched in the content, the
    confidence score is min(20 * n, 100), with n the number of occurrences of
    the term in the content, case apart, counted from left to right one after
    the other (for every term but asthma, which can overlap itself, that is
    the number of all indices at which the term is found); the score is
    listed with the term, it is at most 100, and a content with at least as
    many occurrences scores at least as much. *)
Theorem C1_confidence_score (content term : jsstring) :
  In term MEDICAL_TERMS.conditions ->
  includes (toLowerCase content) (toLowerCase term) = true ->
  let n := occurrences term content in
  let score := calculateConfidence (toLowerCase content) term in
  score = Nat.min (20 * n) 100
  /\ score <= 100
  /\ In (mkCondition term score)
        (potentialConditionsOf (toLowerCase content) (medicalTermsOf (toLowerCase content)))
  /\ (forall content',
         n <= occurrences term content' ->
         score <= calculateConfidence (toLowerCase content') term)
  /\ (term <> str "asthma" -> n = positions term content).
Proof.
  intros Hin Hmatch n score; subst n score.
  pose proof (conditions_nonempty term Hin) as Ht.
  rewrite (calculateConfidence_occurrences content term Ht).
  split; [reflexivity |].
  split; [apply Nat.le_min_r |].
  split; [| split].
  3: { intros N; apply occurrences_positions, conditions_unbordered; assumption. }
  - unfold potentialConditionsOf.
    rewrite <- (calculateConfidence_occurrences content term Ht).
    apply (in_map (fun c => mkCondition c (calculateConfidence (toLowerCase content) c))).
    unfold medicalTermsOf; apply filter_In; split; assumption.
  - intros content' Hle.
    rewrite (calculateConfidence_occurrences content' term Ht).
    apply Nat.min_le_compat_r; lia.
Qed.

(** Six occurrences of the term give 100, not 120. *)
Lemma C1_confidence_score_witness :
  occurrences (str "diabetes") sixTimes = 6
  /\ positions (str "diabetes") sixTimes = 6
  /\ calculateConfidence (toLowerCase sixTimes) (str "diabetes") = 100.
Proof.
  split; [reflexivity |].
  split; [reflexivity |].
  assert (Hin : In (str "diabetes") MEDICAL_TERMS.conditions) by (left; reflexivity).
  assert (Hmatch : includes (toLowerCase sixTimes) (toLowerCase (str "diabetes")) = true)
    by reflexivity.
  destruct (C1_confidence_score sixTimes (str "diabetes") Hin Hmatch) as (E & _).
  rewrite E; reflexivity.
Defined.

(** C2: a term of the condition vocabulary is in medicalTerms exactly when
    the lower-cased content contains it, a term of the risk-factor vocabulary
    is in riskFactors exactly when the lower-cased content contains it; both
    lists hold nothing else, and keep the order of their vocabulary, without
    repeats.  They are the lists of the analysis record. *)
Theorem C2_term_matching (content : jsstring) :
  let lowerContent := toLowerCase content in
  (forall term,
      In term (medicalTermsOf lowerContent) <->
      In term MEDICAL_TERMS.conditions /\ isSubstring term lowerContent)
  /\ (forall factor,
         In factor (riskFactorsOf lowerContent) <->
         In factor MEDICAL_TERMS.riskFactors /\ isSubstring factor lowerContent)
  /\ subsequence (medicalTermsOf lowerContent) MEDICAL_TERMS.conditions
  /\ subsequence (riskFactorsOf lowerContent) MEDICAL_TERMS.riskFactors
  /\ NoDup (medicalTermsOf lowerContent)
  /\ NoDup (riskFactorsOf lowerContent)
  /\ (forall f r,
         analysisOf (Some f) content = Ok r ->
         medicalTerms r = medicalTermsOf lowerContent
         /\ riskFactors r = riskFactorsOf lowerContent).
Proof.
  intros lowerContent.
  split; [exact (medicalTermsOf_In lowerContent) |].
  split; [exact (riskFactorsOf_In lowerContent) |].
  split; [apply subsequence_filter |].
  split; [apply subsequence_filter |].
  split; [apply NoDup_filter_list, conditions_NoDup |].
  split; [apply NoDup_filter_list, riskFactorTerms_NoDup |].
  intros f r H; split; apply (analysisOf_fields f content r H).
Qed.

(** C9: every entry of potentialConditions has a confidence of 20, 40, 60,
    80 or 100: its term occurs in the content at least once. *)
Theorem C9_confidence_positive (content : jsstring) (pc : PotentialCondition) :
  In pc (potentialConditionsOf (toLowerCase content) (medicalTermsOf (toLowerCase content))) ->
  1 <= occurrences (condition_name pc) content
  /\ exists k, 1 <= k <= 5 /\ confidence pc = 20 * k.
Proof.
  unfold potentialConditionsOf; intros H.
  apply in_map_iff in H; destruct H as (term & <- & Hterm).
  unfold medicalTermsOf in Hterm; apply filter_In in Hterm; destruct Hterm as [Hin Hmatch].
  pose proof (conditions_nonempty term Hin) as Ht.
  pose proof (conditions_toLowerCase term Hin) as L.
  rewrite L in Hmatch.
  pose proof (includes_occurrences term Ht L content Hmatch) as Hocc.
  simpl; split; [exact Hocc |].
  rewrite (calculateConfidence_occurrences content term Ht).
  exists (Nat.min (occurrences term content) 5); split; lia.
Qed.

Lemma C9_confidence_positive_witness :
  1 <= occurrences (str "asthma") (str "Asthma since childhood")
  /\ exists k, 1 <= k <= 5 /\ 20 = 20 * k.
Proof.
  apply (C9_confidence_positive (str "Asthma since childhood") (mkCondition (str "asthma") 20)).
  left; reflexivity.
Defined.

(** C10: key-information extraction returns four entries for every input,
    labelled Patient Name, Age, Gender and Date in that order. *)
Theorem C10_four_labels (content : jsstring) :
  exists infos,
    extractKeyInformations content = Ok infos
    /\ length infos = 4
    /\ map label infos = labels.
Proof.
  eexists; split; [apply extractKeyInformations_total |].
  split; reflexivity.
Qed.

(** ** Recommendations *)

Lemma specialistLine_kind (cs : list jsstring) :
  isSpecialistLine (specialistLine cs) = true /\ isLifestyleLine (specialistLine cs) = false.
Proof. split; [apply startsWith_app | reflexivity]. Qed.

Lemma lifestyleLine_kind (rs : list jsstring) :
  isSpecialistLine (lifestyleLine rs) = false /\ isLifestyleLine (lifestyleLine rs) = true.
Proof.
  split; [reflexivity |].
  unfold isLifestyleLine, lifestyleLine; rewrite startsWith_app; reflexivity.
Qed.

Lemma generateRecommendations_cases (cs rs : list jsstring) :
  generateRecommendations cs rs =
  match cs, rs with
  | [], [] => [defaultLine]
  | [], _ :: _ => [lifestyleLine rs; checkUpLine]
  | _ :: _, [] => [specialistLine cs]
  | _ :: _, _ :: _ => [specialistLine cs; lifestyleLine rs; checkUpLine]
  end.
Proof. destruct cs, rs; reflexivity. Qed.

(** C3: the recommendations hold one specialist-consultation line when
    conditions is non-empty and none when it is empty, two lifestyle and
    check-up lines when riskFactors is non-empty and none when it is empty,
    and are the single default line when both lists are empty. *)
Theorem C3_recommendations (cs rs : list jsstring) :
  countLines isSpecialistLine (generateRecommendations cs rs)
    = match cs with [] => 0 | _ :: _ => 1 end
  /\ countLines isLifestyleLine (generateRecommendations cs rs)
    = match rs with [] => 0 | _ :: _ => 2 end
  /\ (cs = [] -> rs = [] -> generateRecommendations cs rs = [defaultLine])
  /\ (In defaultLine (generateRecommendations cs rs) -> cs = [] /\ rs = []).
Proof.
  rewrite generateRecommendations_cases.
  pose proof (specialistLine_kind cs) as [Ss Sl].
  pose proof (lifestyleLine_kind rs) as [Ls Ll].
  destruct cs as [| c cs], rs as [| r rs]; unfold countLines;
    cbn [filter length Nat.ltb Nat.leb];
    rewrite ?Ss, ?Sl, ?Ls, ?Ll;
    (split; [reflexivity | split; [reflexivity | split]]);
    try (intros; reflexivity); try (intros; discriminate).
  - intros _; split; reflexivity.
  - intros [H | [H | []]]; discriminate H.
  - intros [H | []]; discriminate H.
  - intros [H | [H | [H | []]]]; discriminate H.
Qed.

(** ** CSV content *)

Lemma join_loop_joined (sep : jsstring) (l : list jsstring) :
  forall R k,
    join_loop sep R k l =
    match l with
    | [] => R
    | _ :: _ => (if k =? 0 then R else R ++ sep) ++ joined sep l
    end.
Proof.
  induction l as [| x l IH]; intros R k; [reflexivity |].
  cbn [join_loop joined]; rewrite IH.
  destruct l as [| y l]; [reflexivity |].
  cbn [Nat.eqb]; rewrite <- !app_assoc; reflexivity.
Qed.

Lemma join_joined (sep : jsstring) (l : list jsstring) : join sep l = joined sep l.
Proof.
  unfold join; rewrite join_loop_joined.
  destruct l; reflexivity.
Qed.

(** C8: the content of a CSV file is its rows, the fields of each joined by
    one space, joined by a newline. *)
Theorem C8_csv_content (Papa_parse : File -> result (list (list jsstring)))
    (file : File) (rows : list (list jsstring)) (w : World) :
  Papa_parse file = Ok rows ->
  csvContent rows = joined [LF] (map (joined (str " ")) rows)
  /\ parseCSV Papa_parse file w =
     (Ok (joined [LF] (map (joined (str " ")) rows)),
      mkWorld (state w) (trace w ++ [Call_parseCSV])).
Proof.
  intros H.
  assert (E : csvContent rows = joined [LF] (map (joined (str " ")) rows)).
  { unfold csvContent; rewrite join_joined; f_equal.
    apply map_ext; intros row; apply join_joined. }
  split; [exact E |].
  unfold parseCSV, bind, emit, lift, ret; simpl.
  rewrite H, E; reflexivity.
Qed.

Lemma C8_csv_content_witness :
  csvContent [[str "Name"; str "Age"]; [str "Jane Doe"; str "47"]]
    = str "Name Age" ++ [LF] ++ str "Jane Doe 47"
  /\ parseCSV (rowsOf [[str "Name"; str "Age"]; [str "Jane Doe"; str "47"]])
       reportTxt initialWorld =
     (Ok (str "Name Age" ++ [LF] ++ str "Jane Doe 47"), mkWorld initialState [Call_parseCSV]).
Proof.
  exact (C8_csv_content (rowsOf [[str "Name"; str "Age"]; [str "Jane Doe"; str "47"]])
           reportTxt [[str "Name"; str "Age"]; [str "Jane Doe"; str "47"]]
           initialWorld eq_refl).
Defined.

(** ** Key information *)

Lemma janeDoe_values (post : jsstring) :
  map (fun pattern => valueOf (janeDoe ++ post) (pattern_regex pattern)) keyPatterns
  = janeDoeValues.
Proof. destruct post; vm_compute; reflexivity. Qed.

(** C4, as stated, fails: in a text that contains the four lines after a
    page header, the pattern of Age finds the header first. *)
Lemma C4_counterexample :
  extractKeyInformations pagedReport =
    Ok (map (fun lv => mkInfo (fst lv) (snd lv))
          (combine labels (map str ["Jane Doe"; "2"; "Female"; "04/02/1990"]%string)))
  /\ ~ (forall content,
          isSubstring janeDoe content ->
          exists infos,
            extractKeyInformations content = Ok infos /\ map value infos = janeDoeValues).
Proof.
  split; [vm_compute; reflexivity |].
  intros H.
  destruct (H pagedReport) as (infos & E & V).
  - exists (str "Page: 2" ++ [LF]), []; vm_compute; reflexivity.
  - vm_compute in E; injection E as <-; vm_compute in V; discriminate V.
Qed.

(** ** Uploads *)

Lemma strEqb_eq (a b : jsstring) : strEqb a b = true <-> a = b.
Proof.
  revert b; induction a as [| x a IH]; intros [| y b]; simpl; split; intros H;
    try reflexivity; try discriminate H.
  - apply andb_true_iff in H; destruct H as [Hx Ha].
    apply Ascii.eqb_eq in Hx; apply IH in Ha; subst; reflexivity.
  - injection H as -> ->.
    rewrite Ascii.eqb_refl; apply IH; reflexivity.
Qed.

Lemma strEqb_neq (a b : jsstring) : a <> b -> strEqb a b = false.
Proof.
  intros N; destruct (strEqb a b) eqn:E; [| reflexivity].
  apply strEqb_eq in E; contradiction.
Qed.

Lemma split_from_last (sep : ascii) (s : jsstring) :
  forall cur, pop (split_from sep cur s) = Some (last (split_from sep cur s) []).
Proof.
  induction s as [| c s IH]; intros cur; simpl; [reflexivity |].
  destruct (Ascii.eqb c sep); [| apply IH].
  specialize (IH []).
  destruct (split_from sep [] s) as [| x l] eqn:E; [discriminate IH |].
  exact IH.
Qed.

(** The extension is read without an exception: [split] returns at least
    one part. *)
Lemma fileExtension_extension (file : File) : fileExtension file = Ok (extension file).
Proof.
  unfold fileExtension, extension, split.
  rewrite split_from_last; reflexivity.
Qed.

(** With a file in the render the analysis raises nothing. *)
Lemma analysisOf_total (f : File) (content : jsstring) :
  exists r, analysisOf (Some f) content = Ok r.
Proof.
  unfold analysisOf; rewrite extractKeyInformations_total; simpl; eauto.
Qed.

(** Without one, it raises on [reportFile.type], whatever the content. *)
Lemma analysisOf_null (content : jsstring) :
  analysisOf None content = Throw (TypeError_read "null" "type").
Proof.
  unfold analysisOf; rewrite extractKeyInformations_total; reflexivity.
Qed.

(** The analysis waits for nothing. *)
Lemma analysisOf_settles (rendered : option File) (content : jsstring) :
  analysisOf rendered content <> Pending.
Proof.
  destruct rendered as [f |].
  - destruct (analysisOf_total f content) as [r ->]; discriminate.
  - rewrite analysisOf_null; discriminate.
Qed.

Section UploadFacts.

Variable readAsText : File -> result jsstring.
Variable Papa_parse : File -> result (list (list jsstring)).
Variable XLSX_sheets : File -> result (list jsstring).

Lemma handleFileUpload_unsupported (rendered : option File) (file : File) (w : World) :
  ~ In (extension file) supported ->
  handleFileUpload readAsText Papa_parse XLSX_sheets rendered (Some file) w
  = (Ok tt, failed file (fileContent (state w)) w [] unsupportedMessage).
Proof.
  intros N.
  assert (E : forall e, In e supported -> strEqb (extension file) e = false).
  { intros e He; apply strEqb_neq; intros Heq; apply N; rewrite Heq; exact He. }
  unfold handleFileUpload, parseFile, try_catch_finally, bind, lift, throw.
  rewrite fileExtension_extension; simpl.
  rewrite !E by (simpl; tauto); simpl.
  unfold failed, setIsAnalyzing, update; simpl.
  rewrite <- app_assoc; reflexivity.
Qed.

(** An upload of a text file: the content is stored, then the analysis
    runs with the file of the render. *)
Lemma handleFileUpload_txt (rendered : option File) (file : File) (w : World)
    (content : jsstring) :
  extension file = str "txt" ->
  readAsText file = Ok content ->
  handleFileUpload readAsText Papa_parse XLSX_sheets rendered (Some file) w
  = (Ok tt,
     match analysisOf rendered content with
     | Ok r =>
         mkWorld (mkComponent (Some file) content r false)
                 (trace w ++ [Call_parseTextFile; Call_performDetailedAnalysis content])
     | Throw e =>
         failed file content w
           [Call_parseTextFile; Call_performDetailedAnalysis content] e
     | Pending => w
     end).
Proof.
  intros Hext Hread.
  unfold handleFileUpload, parseFile, try_catch_finally, bind, lift, throw.
  rewrite fileExtension_extension, Hext; simpl.
  unfold parseTextFile, performDetailedAnalysis, bind, lift; simpl.
  rewrite Hread; simpl.
  pose proof (analysisOf_settles rendered content) as S.
  unfold failed; destruct (analysisOf rendered content); simpl;
    rewrite <- ?app_assoc; try reflexivity.
  contradiction.
Qed.

End UploadFacts.

Lemma analysisOf_recommendations (f : File) (content : jsstring) (r : AnalysisResult) :
  analysisOf (Some f) content = Ok r -> recommendations r <> [].
Proof.
  intros H.
  destruct (analysisOf_fields f content r H) as (_ & _ & _ & _ & _ & ->).
  rewrite generateRecommendations_cases.
  destruct (medicalTermsOf _), (riskFactorsOf _); discriminate.
Qed.

(** C5: an upload of a file whose extension is none of txt, csv, xlsx and
    xls fails with the unsupported-file-type message, on the console and in
    an alert; no reader and no analysis is called, and the analysis results
    and the content stay as they were. *)
Theorem C5_unsupported_extension
    (readAsText : File -> result jsstring)
    (Papa_parse : File -> result (list (list jsstring)))
    (XLSX_sheets : File -> result (list jsstring))
    (rendered : option File) (file : File) (w : World) :
  ~ In (extension file) supported ->
  let out := handleFileUpload readAsText Papa_parse XLSX_sheets rendered (Some file) w in
  fileExtension file = Ok (extension file)
  /\ fst out = Ok tt
  /\ trace (snd out) =
       trace w ++ [Console_error (str "File parsing error: " ++ unsupportedMessage);
                   Alert (str "Error parsing file: " ++ unsupportedMessage)]
  /\ analysisResults (state (snd out)) = analysisResults (state w)
  /\ fileContent (state (snd out)) = fileContent (state w)
  /\ reportFile (state (snd out)) = Some file
  /\ isAnalyzing (state (snd out)) = false.
Proof.
  intros N out; subst out.
  rewrite (handleFileUpload_unsupported _ _ _ rendered file w N).
  split; [apply fileExtension_extension |].
  repeat split.
Qed.

Lemma C5_unsupported_extension_witness :
  extension scanPdf = str "pdf"
  /\ trace (upload (textOf []) (rowsOf []) (sheetsOf []) scanPdf initialWorld) =
       [Console_error (str "File parsing error: " ++ unsupportedMessage);
        Alert (str "Error parsing file: " ++ unsupportedMessage)]
  /\ analysisResults (state (upload (textOf []) (rowsOf []) (sheetsOf []) scanPdf initialWorld))
     = initialResults.
Proof.
  assert (N : ~ In (extension scanPdf) supported).
  { vm_compute; intuition discriminate. }
  destruct (C5_unsupported_extension (textOf []) (rowsOf []) (sheetsOf []) None scanPdf
              initialWorld N) as (_ & _ & T & R & _).
  split; [reflexivity |].
  split; [exact T | exact R].
Defined.

(** C6 fails on the first upload: the analysis reads the type of the file
    of its render, which is still null then, and raises a TypeError for
    every content; the record is not produced and the results stay the
    initial ones. *)
Theorem C6_analysis_raises_without_rendered_file (content : jsstring) :
  analysisOf None content = Throw (TypeError_read "null" "type")
  /\ upload (textOf content) (rowsOf []) (sheetsOf []) reportTxt initialWorld
     = failed reportTxt content initialWorld
         [Call_parseTextFile; Call_performDetailedAnalysis content]
         (TypeError_read "null" "type").
Proof.
  split; [apply analysisOf_null |].
  unfold upload.
  rewrite (handleFileUpload_txt (textOf content) _ _ _ reportTxt initialWorld content)
    by reflexivity.
  change (reportFile (state initialWorld)) with (@None File).
  rewrite analysisOf_null; reflexivity.
Qed.

(** C7 fails: the same text file uploaded twice from the initial state gives
    no results the first time (the analysis raises) and the record the second
    time; and the record shows the type of the file uploaded before, so that
    the same file after another file gives yet another record. *)
Theorem C7_reupload_differs (content : jsstring) :
  let up := upload (textOf content) (rowsOf []) (sheetsOf []) in
  let w1 := up reportTxt initialWorld in
  let w2 := up reportTxt w1 in
  let w3 := up reportTxt (up notesTxt w2) in
  analysisResults (state w1) = initialResults
  /\ analysisOf (Some reportTxt) content = Ok (analysisResults (state w2))
  /\ analysisResults (state w1) <> analysisResults (state w2)
  /\ analysisOf (Some notesTxt) content = Ok (analysisResults (state w3))
  /\ analysisResults (state w2) <> analysisResults (state w3).
Proof.
  intros up w1 w2 w3.
  assert (Step : forall f w,
             extension f = str "txt" ->
             up f w =
             match analysisOf (reportFile (state w)) content with
             | Ok r =>
                 mkWorld (mkComponent (Some f) content r false)
                   (trace w ++ [Call_parseTextFile; Call_performDetailedAnalysis content])
             | Throw e =>
                 failed f content w
                   [Call_parseTextFile; Call_performDetailedAnalysis content] e
             | Pending => w
             end).
  { intros f w Hf; unfold up, upload.
    rewrite (handleFileUpload_txt (textOf content) _ _ _ f w content Hf eq_refl).
    reflexivity. }
  assert (E1 : w1 = failed reportTxt content initialWorld
                  [Call_parseTextFile; Call_performDetailedAnalysis content]
                  (TypeError_read "null" "type")).
  { unfold w1; rewrite Step by reflexivity.
    change (reportFile (state initialWorld)) with (@None File).
    rewrite analysisOf_null; reflexivity. }
  destruct (analysisOf_total reportTxt content) as [r2 A2].
  destruct (analysisOf_total notesTxt content) as [r3 A3].
  assert (E2 : analysisResults (state w2) = r2 /\ reportFile (state w2) = Some reportTxt).
  { unfold w2; rewrite Step by reflexivity.
    rewrite E1; cbn [failed state reportFile]; rewrite A2; split; reflexivity. }
  destruct E2 as [E2 F2].
  assert (F' : reportFile (state (up notesTxt w2)) = Some notesTxt).
  { rewrite Step by reflexivity; rewrite F2, A2; reflexivity. }
  assert (E3 : analysisResults (state w3) = r3).
  { unfold w3; rewrite Step by reflexivity.
    rewrite F', A3; reflexivity. }
  rewrite E2, E3, E1; cbn [failed state analysisResults initialWorld initialState].
  split; [reflexivity |].
  split; [exact A2 |].
  split.
  - intros H; apply (analysisOf_recommendations reportTxt content r2 A2).
    rewrite <- H; reflexivity.
  - split; [exact A3 |].
    intros H.
    destruct (analysisOf_fields _ _ _ A2) as (T2 & _).
    destruct (analysisOf_fields _ _ _ A3) as (T3 & _).
    rewrite H, T3 in T2; discriminate T2.
Qed.

(** ** What a match consumes *)

Lemma repeatMatcher_sound (p : ascii -> bool) (k : Continuation)
    (cap : option (nat * nat)) (z : MatchState) :
  forall s lo hi i,
    match hi with Some h => lo <= h | None => True end ->
    repeatMatcher p lo hi i s cap k = Some z ->
    exists w s',
      k (mkState (i + length w) s' cap) = Some z
      /\ s = w ++ s'
      /\ Forall (fun c => p c = true) w
      /\ lo <= length w
      /\ match hi with Some h => length w <= h | None => True end.
Proof.
  assert (Stop : forall lo hi i s,
             hi <> Some 0 ->
             (if lo =? 0 then k (mkState i s cap) else None) = Some z ->
             exists w s',
               k (mkState (i + length w) s' cap) = Some z
               /\ s = w ++ s'
               /\ Forall (fun c => p c = true) w
               /\ lo <= length w
               /\ match hi with Some h => length w <= h | None => True end).
  { intros lo hi i s Hhi H.
    destruct lo; [| discriminate H].
    exists [], s; simpl; rewrite Nat.add_0_r.
    repeat split; [exact H | constructor | lia |].
    destruct hi as [h |]; [lia | exact I]. }
  assert (Zero : forall lo i s,
             lo <= 0 ->
             k (mkState i s cap) = Some z ->
             exists w s',
               k (mkState (i + length w) s' cap) = Some z
               /\ s = w ++ s'
               /\ Forall (fun c => p c = true) w
               /\ lo <= length w
               /\ length w <= 0).
  { intros lo i s B H.
    exists [], s; simpl; rewrite Nat.add_0_r.
    repeat split; [exact H | constructor | exact B | lia]. }
  induction s as [| c s IH]; intros lo hi i B H.
  - destruct hi as [[| h] |]; simpl in H.
    + apply Zero; assumption.
    + apply (Stop lo (Some (S h))); [discriminate | exact H].
    + apply (Stop lo None); [discriminate | exact H].
  - destruct hi as [[| h] |]; simpl in H; [apply Zero; assumption | |].
    + destruct (p c) eqn:Pc;
        [| apply (Stop lo (Some (S h))); [discriminate | exact H]].
      destruct (repeatMatcher p (pred lo) (Some h) (S i) s cap k) eqn:E;
        [| apply (Stop lo (Some (S h))); [discriminate | exact H]].
      injection H as ->.
      destruct (IH (pred lo) (Some h) (S i)) as (w & s' & K & Es & Fw & Lw & Hw);
        [lia | exact E |].
      exists (c :: w), s'; simpl.
      rewrite <- plus_n_Sm; simpl in K.
      repeat split; [exact K | rewrite Es; reflexivity | constructor; assumption | lia | lia].
    + destruct (p c) eqn:Pc;
        [| apply (Stop lo None); [discriminate | exact H]].
      destruct (repeatMatcher p (pred lo) None (S i) s cap k) eqn:E;
        [| apply (Stop lo None); [discriminate | exact H]].
      injection H as ->.
      destruct (IH (pred lo) None (S i)) as (w & s' & K & Es & Fw & Lw & _);
        [exact I | exact E |].
      exists (c :: w), s'; simpl.
      rewrite <- plus_n_Sm; simpl in K.
      repeat split; [exact K | rewrite Es; reflexivity | constructor; assumption | lia].
Qed.

Lemma groups_groupOf (r : regex) : groups r = 0 -> groupOf r = None.
Proof.
  induction r as [| p | p lo hi | r1 IH1 r2 IH2 | r IH]; simpl; intros H;
    try reflexivity; [| discriminate H].
  rewrite IH1, IH2 by lia; reflexivity.
Qed.

(** What the matcher hands to its continuation: the state after a word of
    the pattern, with the capture as it was when the pattern has no group,
    and at the word of the group when it has one. *)
Lemma matcher_sound (r : regex) :
  boundsInOrder r = true ->
  groups r <= 1 ->
  forall x k z,
    matcher r x k = Some z ->
    exists y w,
      k y = Some z
      /\ rest x = w ++ rest y
      /\ endIndex y = endIndex x + length w
      /\ matches r w
      /\ (groupOf r = None -> capture y = capture x)
      /\ (forall g, groupOf r = Some g ->
            exists pre v post,
              w = pre ++ v ++ post
              /\ capture y =
                   Some (endIndex x + length pre, endIndex x + length pre + length v)
              /\ matches g v).
Proof.
  induction r as [| p | p lo hi | r1 IH1 r2 IH2 | r IH]; intros B G x k z H; simpl in H.
  - exists x, []; simpl; rewrite Nat.add_0_r.
    repeat split; [exact H | discriminate].
  - destruct (rest x) as [| c s'] eqn:Er; [discriminate H |].
    destruct (p c) eqn:Pc; [| discriminate H].
    exists (mkState (S (endIndex x)) s' (capture x)), [c]; simpl.
    repeat split; [exact H | lia | exists c; auto | discriminate].
  - destruct (repeatMatcher_sound p k (capture x) z (rest x) lo hi (endIndex x))
      as (w & s' & K & Es & Fw & Lw & Hw).
    { simpl in B; destruct hi as [h |]; [apply Nat.leb_le; exact B | exact I]. }
    { exact H. }
    exists (mkState (endIndex x + length w) s' (capture x)), w; simpl.
    repeat split; [exact K | exact Es | exact Fw | exact Lw | exact Hw | discriminate].
  - simpl in B, G; apply andb_true_iff in B; destruct B as [B1 B2].
    destruct (IH1 B1 ltac:(lia) _ _ _ H) as (y1 & w1 & K1 & R1 & I1 & M1 & N1 & S1).
    destruct (IH2 B2 ltac:(lia) _ _ _ K1) as (y2 & w2 & K2 & R2 & I2 & M2 & N2 & S2).
    exists y2, (w1 ++ w2).
    split; [exact K2 |].
    split; [rewrite R1, R2, app_assoc; reflexivity |].
    split; [rewrite I2, I1, length_app; lia |].
    split; [exists w1, w2; auto |].
    simpl; destruct (groupOf r1) as [g1 |] eqn:G1.
    + split; [discriminate |].
      intros g Eg; injection Eg as <-.
      destruct (S1 g1 eq_refl) as (pre & v & post & Ew & C1 & Mg).
      assert (G2 : groupOf r2 = None).
      { apply groups_groupOf.
        destruct (groups r1) eqn:Z; [| lia].
        rewrite (groups_groupOf r1 Z) in G1; discriminate G1. }
      exists pre, v, (post ++ w2).
      split; [rewrite Ew, <- !app_assoc; reflexivity |].
      split; [rewrite (N2 G2); exact C1 | exact Mg].
    + split.
      * intros G2; rewrite (N2 G2); apply N1; reflexivity.
      * intros g Eg.
        destruct (S2 g Eg) as (pre & v & post & Ew & C2 & Mg).
        exists (w1 ++ pre), v, post.
        split; [rewrite Ew, <- !app_assoc; reflexivity |].
        split; [| exact Mg].
        rewrite C2, I1, length_app; f_equal; f_equal; lia.
  - simpl in B, G.
    destruct (IH B ltac:(lia) _ _ _ H) as (y & w & K & R & I1 & M & N & _).
    eexists; exists w; simpl.
    split; [exact K |].
    repeat split; [exact R | exact I1 | exact M | discriminate |].
    intros g Eg; injection Eg as <-.
    exists [], w, []; simpl; rewrite app_nil_r, Nat.add_0_r.
    split; [reflexivity |].
    split; [rewrite I1; reflexivity | exact M].
Qed.

Lemma firstn_length_app (A : Type) (a b : list A) : firstn (length a) (a ++ b) = a.
Proof. induction a as [| x a IH]; simpl; [destruct b; reflexivity | rewrite IH; reflexivity]. Qed.

Lemma skipn_length_app (A : Type) (a b : list A) : skipn (length a) (a ++ b) = b.
Proof. induction a as [| x a IH]; simpl; [reflexivity | exact IH]. Qed.

Lemma substring_middle (a v c : jsstring) :
  substring (a ++ v ++ c) (length a) (length a + length v) = v.
Proof.
  unfold substring.
  rewrite skipn_length_app.
  replace (length a + length v - length a) with (length v) by lia.
  apply firstn_length_app.
Qed.

Lemma search_sound (r : regex) :
  forall s i j y,
    search r i s = Some (j, y) ->
    exists d, j = i + d /\ d <= length s /\ matchAt r j (skipn d s) = Some y.
Proof.
  induction s as [| c s IH]; intros i j y H; simpl in H;
    destruct (matchAt r i _) eqn:E.
  - injection H as <- <-; exists 0; rewrite Nat.add_0_r; simpl; auto.
  - discriminate H.
  - injection H as <- <-; exists 0; rewrite Nat.add_0_r; simpl; split; [| split]; auto; lia.
  - destruct (IH _ _ _ H) as (d & -> & Hd & M).
    exists (S d); simpl; split; [lia | split; [lia | exact M]].
Qed.

(** A match of [String.prototype.match]: the matched text is a word of the
    pattern found in the content at the index of the match, and group 1 is a
    word of the pattern of the group inside it. *)
Lemma String_match_sound (r : regex) (content : jsstring) (m : MatchArray) :
  boundsInOrder r = true ->
  groups r <= 1 ->
  String_match content r = Some m ->
  exists before w after,
    content = before ++ w ++ after
    /\ index m = length before
    /\ match0 m = w
    /\ matches r w
    /\ (forall g, groupOf r = Some g ->
          exists pre v post,
            w = pre ++ v ++ post /\ match1 m = Some v /\ matches g v).
Proof.
  intros B G H; unfold String_match in H.
  destruct (search r 0 content) as [[j y] |] eqn:E; [| discriminate H].
  injection H as <-.
  destruct (search_sound r _ _ _ _ E) as (d & -> & Hd & M).
  unfold matchAt in M.
  destruct (matcher_sound r B G _ _ _ M) as (y' & w & K & R & I1 & Mw & _ & Sg).
  injection K as ->; simpl in R, I1, Sg.
  assert (Ec : content = firstn d content ++ w ++ rest y).
  { rewrite <- R; symmetry; apply firstn_skipn. }
  assert (Ld : length (firstn d content) = d) by (rewrite length_firstn; lia).
  remember (firstn d content) as before eqn:Eb; clear Eb E M R Hd.
  subst d; simpl in *.
  exists before, w, (rest y).
  split; [exact Ec |].
  split; [reflexivity |].
  split; [rewrite I1, Ec; apply substring_middle |].
  split; [exact Mw |].
  intros g Eg.
  destruct (Sg g Eg) as (pre & v & post & Ew & C & Mg).
  exists pre, v, post.
  split; [exact Ew | split; [| exact Mg]].
  rewrite C; simpl; f_equal.
  rewrite Ec, Ew.
  replace (before ++ (pre ++ v ++ post) ++ rest y)
    with ((before ++ pre) ++ v ++ (post ++ rest y))
    by (rewrite <- !app_assoc; reflexivity).
  rewrite <- length_app.
  apply substring_middle.
Qed.

(** ** Trimming *)

Lemma trimStart_suffix (s : jsstring) : exists a, s = a ++ trimStart s.
Proof.
  induction s as [| c s [a IH]]; simpl; [exists []; reflexivity |].
  destruct (isWhiteSpace c).
  - exists (c :: a); simpl; rewrite <- IH; reflexivity.
  - exists []; reflexivity.
Qed.

Lemma trimStart_idem (s : jsstring) : trimStart (trimStart s) = trimStart s.
Proof.
  induction s as [| c s IH]; simpl; [reflexivity |].
  destruct (isWhiteSpace c) eqn:E; [exact IH | simpl; rewrite E; reflexivity].
Qed.

Lemma trimStart_head (c : ascii) (s : jsstring) :
  isWhiteSpace c = false -> trimStart (c :: s) = c :: s.
Proof. intros H; simpl; rewrite H; reflexivity. Qed.

Lemma trimStart_app (l m : jsstring) (c : ascii) :
  isWhiteSpace c = false -> trimStart (l ++ c :: m) = trimStart l ++ c :: m.
Proof.
  intros H; induction l as [| x l IH]; simpl; [rewrite H; reflexivity |].
  destruct (isWhiteSpace x); [exact IH | reflexivity].
Qed.

Lemma trimEnd_prefix (s : jsstring) : exists b, s = trimEnd s ++ b.
Proof.
  unfold trimEnd.
  destruct (trimStart_suffix (rev s)) as [a E].
  exists (rev a).
  rewrite <- rev_app_distr, <- E, rev_involutive; reflexivity.
Qed.

(** What [trim] returns has no white space at either end, and trimming it
    again changes nothing. *)
Lemma trim_trimmed (s : jsstring) : trimmed (trim s).
Proof.
  unfold trimmed, trim, trimEnd; split.
  - destruct (trimStart s) as [| c t] eqn:E; [reflexivity |].
    assert (Hc : isWhiteSpace c = false).
    { destruct (isWhiteSpace c) eqn:W; [| reflexivity].
      pose proof (trimStart_idem s) as I; rewrite E in I; simpl in I; rewrite W in I.
      destruct (trimStart_suffix t) as [a Ea].
      apply (f_equal (@length ascii)) in I; rewrite Ea in I at 2.
      simpl in I; rewrite length_app in I; lia. }
    simpl rev; rewrite (trimStart_app _ [] c Hc), rev_app_distr; simpl.
    rewrite Hc; reflexivity.
  - rewrite rev_involutive, trimStart_idem; reflexivity.
Qed.

Lemma trim_substring (s : jsstring) : isSubstring (trim s) s.
Proof.
  destruct (trimStart_suffix s) as [a Ea].
  destruct (trimEnd_prefix (trimStart s)) as [b Eb].
  exists a, b; unfold trim; rewrite <- Eb; exact Ea.
Qed.

Lemma trimStart_Forall (P : ascii -> Prop) (s : jsstring) :
  Forall P s -> Forall P (trimStart s).
Proof.
  induction 1 as [| c s Hc Hs IH]; simpl; [constructor |].
  destruct (isWhiteSpace c); [exact IH | constructor; assumption].
Qed.

Lemma trim_Forall (P : ascii -> Prop) (s : jsstring) : Forall P s -> Forall P (trim s).
Proof.
  intros H; unfold trim, trimEnd.
  apply Forall_rev, trimStart_Forall, Forall_rev, trimStart_Forall, H.
Qed.

Lemma trimStart_none (s : jsstring) :
  Forall (fun c => isWhiteSpace c = false) s -> trimStart s = s.
Proof. destruct 1 as [| c s Hc _]; simpl; [reflexivity | rewrite Hc; reflexivity]. Qed.

(** A string without white space is its own trimming. *)
Lemma trim_none (s : jsstring) :
  Forall (fun c => isWhiteSpace c = false) s -> trim s = s.
Proof.
  intros H; unfold trim, trimEnd.
  rewrite (trimStart_none s H), (trimStart_none (rev s)) by (apply Forall_rev, H).
  apply rev_involutive.
Qed.

Lemma isSubstring_trans (a b c : jsstring) :
  isSubstring a b -> isSubstring b c -> isSubstring a c.
Proof.
  intros (p1 & q1 & ->) (p2 & q2 & ->).
  exists (p2 ++ p1), (q1 ++ q2); rewrite <- !app_assoc; reflexivity.
Qed.

Lemma digit_not_space (c : ascii) : digit c = true -> isWhiteSpace c = false.
Proof. destruct c as [[] [] [] [] [] [] [] []]; vm_compute; congruence. Qed.

Lemma separator_not_space (c : ascii) : isSeparator c = true -> isWhiteSpace c = false.
Proof. destruct c as [[] [] [] [] [] [] [] []]; vm_compute; congruence. Qed.

(** The value of a label whose pattern has one group: Not Found, or the
    trimming of a word of the group found in the content. *)
Lemma valueOf_cases (r g : regex) (content : jsstring) :
  boundsInOrder r = true ->
  groups r <= 1 ->
  groupOf r = Some g ->
  (String_match content r = None /\ valueOf content r = str "Not Found")
  \/ (exists v, matches g v /\ isSubstring v content /\ valueOf content r = trim v).
Proof.
  intros B G Eg; unfold valueOf.
  destruct (String_match content r) as [m |] eqn:E; [right | left; auto].
  destruct (String_match_sound r content m B G E)
    as (before & w & after & Ec & _ & _ & _ & Sg).
  destruct (Sg g Eg) as (pre & v & post & Ew & M1 & Mg).
  exists v; rewrite M1.
  split; [exact Mg | split; [| reflexivity]].
  exists (before ++ pre), (post ++ after).
  rewrite Ec, Ew, <- !app_assoc; reflexivity.
Qed.

(** ** The values of the four labels *)

Lemma keyPatterns_one_group (pattern : KeyPattern) :
  In pattern keyPatterns ->
  boundsInOrder (pattern_regex pattern) = true /\ groups (pattern_regex pattern) <= 1.
Proof.
  intros [<- | [<- | [<- | [<- | []]]]]; split; solve [reflexivity | simpl; lia].
Qed.

Lemma extractKeyInformations_entry (content : jsstring) (infos : list KeyInformation)
    (l v : jsstring) :
  extractKeyInformations content = Ok infos ->
  In (mkInfo l v) infos ->
  exists pattern,
    In pattern keyPatterns /\ l = pattern_label pattern
    /\ v = valueOf content (pattern_regex pattern).
Proof.
  intros E Hin.
  assert (Ei : infos =
               map (fun pattern =>
                      mkInfo (pattern_label pattern) (valueOf content (pattern_regex pattern)))
                   keyPatterns)
    by (rewrite extractKeyInformations_total in E; congruence).
  rewrite Ei in Hin.
  apply in_map_iff in Hin; destruct Hin as (pattern & Ep & Hp).
  exists pattern; split; [exact Hp |].
  split; congruence.
Qed.

Lemma label_pattern (pattern : KeyPattern) (l : string) (r : regex) :
  In pattern keyPatterns ->
  In (mkPattern (str l) r) keyPatterns ->
  str l = pattern_label pattern ->
  pattern_regex pattern = r.
Proof.
  intros [<- | [<- | [<- | [<- | []]]]] [E | [E | [E | [E | []]]]] L;
    injection E as El <-; try reflexivity;
    rewrite <- El in L; vm_compute in L; discriminate L.
Qed.

(** X1: the value of Age is Not Found when the pattern of Age has no match;
    otherwise it is a run of one or more decimal digits that stands in the
    content. *)
Theorem X1_age_is_digits (content : jsstring) (infos : list KeyInformation)
    (age : jsstring) :
  extractKeyInformations content = Ok infos ->
  In (mkInfo (str "Age") age) infos ->
  (String_match content ageRegex = None /\ age = str "Not Found")
  \/ (age <> [] /\ Forall (fun c => digit c = true) age /\ isSubstring age content).
Proof.
  intros E Hin.
  destruct (extractKeyInformations_entry content infos _ _ E Hin) as (pattern & Hp & L & ->).
  rewrite (label_pattern pattern "Age" ageRegex Hp) by (simpl; auto).
  destruct (valueOf_cases ageRegex (plus digit) content) as [H | (v & M & S & ->)];
    [reflexivity | simpl; lia | reflexivity | left; exact H | right].
  destruct M as (Fd & Ld & _).
  assert (T : trim v = v).
  { apply trim_none; revert Fd; apply Forall_impl; exact digit_not_space. }
  rewrite T; split; [| split; assumption].
  intros ->; simpl in Ld; lia.
Qed.

Lemma X1_age_is_digits_witness :
  (String_match janeDoe ageRegex = None /\ str "47" = str "Not Found")
  \/ (str "47" <> [] /\ Forall (fun c => digit c = true) (str "47")
      /\ isSubstring (str "47") janeDoe).
Proof.
  apply (X1_age_is_digits janeDoe
           (map (fun lv => mkInfo (fst lv) (snd lv)) (combine labels janeDoeValues))).
  - vm_compute; reflexivity.
  - right; left; reflexivity.
Defined.

(** X2: the value of Date is Not Found when the pattern of Date has no
    match; otherwise it stands in the content and has the shape of one or two
    digits, a dash or a slash, one or two digits, a dash or a slash, and two to
    four digits. *)
Theorem X2_date_shape (content : jsstring) (infos : list KeyInformation)
    (date : jsstring) :
  extractKeyInformations content = Ok infos ->
  In (mkInfo (str "Date") date) infos ->
  (String_match content dateRegex = None /\ date = str "Not Found")
  \/ (dateShaped date /\ isSubstring date content).
Proof.
  intros E Hin.
  destruct (extractKeyInformations_entry content infos _ _ E Hin) as (pattern & Hp & L & ->).
  rewrite (label_pattern pattern "Date" dateRegex Hp) by (simpl; auto).
  destruct (valueOf_cases dateRegex
              (seqs [Rep digit 1 (Some 2); Atom (oneOf "-/"); Rep digit 1 (Some 2);
                     Atom (oneOf "-/"); Rep digit 2 (Some 4)]) content)
    as [H | (v & M & S & ->)];
    [reflexivity | simpl; lia | reflexivity | left; exact H | right].
  destruct M as (d1 & t1 & -> & (F1 & L1 & H1) & M).
  destruct M as (x1 & t2 & -> & (s1 & -> & P1) & M).
  destruct M as (d2 & t3 & -> & (F2 & L2 & H2) & M).
  destruct M as (x2 & t4 & -> & (s2 & -> & P2) & M).
  destruct M as (d3 & t5 & -> & (F3 & L3 & H3) & ->).
  rewrite app_nil_r in *.
  assert (T : trim (d1 ++ [s1] ++ d2 ++ [s2] ++ d3) = d1 ++ [s1] ++ d2 ++ [s2] ++ d3).
  { apply trim_none.
    repeat (apply Forall_app; split);
      try (eapply Forall_impl; [exact digit_not_space | assumption]);
      constructor; try constructor; apply separator_not_space; assumption. }
  rewrite T; split; [| exact S].
  exists d1, s1, d2, s2, d3; repeat split; assumption.
Qed.

Lemma X2_date_shape_witness :
  (String_match janeDoe dateRegex = None /\ str "04/02/1990" = str "Not Found")
  \/ (dateShaped (str "04/02/1990") /\ isSubstring (str "04/02/1990") janeDoe).
Proof.
  apply (X2_date_shape janeDoe
           (map (fun lv => mkInfo (fst lv) (snd lv)) (combine labels janeDoeValues))).
  - vm_compute; reflexivity.
  - right; right; right; left; reflexivity.
Defined.

(** X3: the values of Patient Name and of Gender are Not Found when their
    pattern has no match; otherwise the value stands in the content, holds no
    line feed and has no white space at either end (it is empty when the rest
    of the line is blank). *)
Theorem X3_name_and_gender_single_line (content : jsstring)
    (infos : list KeyInformation) (l v : jsstring) :
  extractKeyInformations content = Ok infos ->
  In (mkInfo l v) infos ->
  l = str "Patient Name" \/ l = str "Gender" ->
  v = str "Not Found"
  \/ (Forall (fun c => c <> LF) v /\ trimmed v /\ isSubstring v content).
Proof.
  intros E Hin Hl.
  destruct (extractKeyInformations_entry content infos _ _ E Hin) as (pattern & Hp & L & ->).
  assert (R : pattern_regex pattern = patientNameRegex \/ pattern_regex pattern = genderRegex).
  { destruct Hl as [-> | ->].
    - left; apply (label_pattern pattern "Patient Name"); simpl; auto.
    - right; apply (label_pattern pattern "Gender"); simpl; auto 6. }
  assert (C : (String_match content (pattern_regex pattern) = None
               /\ valueOf content (pattern_regex pattern) = str "Not Found")
              \/ exists w, matches (plus notNewline) w /\ isSubstring w content
                           /\ valueOf content (pattern_regex pattern) = trim w).
  { destruct R as [-> | ->]; apply valueOf_cases; solve [reflexivity | simpl; lia]. }
  destruct C as [[_ H] | (w & (Fw & _) & S & ->)]; [left; exact H | right].
  split; [| split].
  - apply trim_Forall; revert Fw; apply Forall_impl.
    intros c Hc ->; discriminate Hc.
  - apply trim_trimmed.
  - exact (isSubstring_trans _ _ _ (trim_substring w) S).
Qed.

Lemma X3_name_and_gender_single_line_witness :
  str "Jane Doe" = str "Not Found"
  \/ (Forall (fun c => c <> LF) (str "Jane Doe") /\ trimmed (str "Jane Doe")
      /\ isSubstring (str "Jane Doe") janeDoe).
Proof.
  apply (X3_name_and_gender_single_line janeDoe
           (map (fun lv => mkInfo (fst lv) (snd lv)) (combine labels janeDoeValues))
           (str "Patient Name")).
  - vm_compute; reflexivity.
  - left; reflexivity.
  - left; reflexivity.
Defined.

(** ** Lower-casing the content *)

Lemma isWhiteSpace_lowerChar (c : ascii) : isWhiteSpace (lowerChar c) = isWhiteSpace c.
Proof. destruct c as [[] [] [] [] [] [] [] []]; reflexivity. Qed.

Lemma trimStart_lower (s : jsstring) :
  trimStart (toLowerCase s) = toLowerCase (trimStart s).
Proof.
  induction s as [| c s IH]; simpl; [reflexivity |].
  rewrite isWhiteSpace_lowerChar; destruct (isWhiteSpace c); [exact IH | reflexivity].
Qed.

Lemma trim_lower (s : jsstring) : trim (toLowerCase s) = toLowerCase (trim s).
Proof.
  unfold trim, trimEnd.
  rewrite trimStart_lower.
  unfold toLowerCase at 1; rewrite <- map_rev; fold (toLowerCase (rev (trimStart s))).
  rewrite trimStart_lower.
  unfold toLowerCase; rewrite map_rev; reflexivity.
Qed.

Lemma substring_lower (s : jsstring) (b e : nat) :
  substring (toLowerCase s) b e = toLowerCase (substring s b e).
Proof. unfold substring, toLowerCase; rewrite skipn_map, firstn_map; reflexivity. Qed.

Lemma repeatMatcher_lower (p : ascii -> bool) (k k' : Continuation)
    (cap : option (nat * nat)) :
  (forall c, p (lowerChar c) = p c) ->
  (forall y, k' (lowerState y) = option_map lowerState (k y)) ->
  forall s lo hi i,
    repeatMatcher p lo hi i (toLowerCase s) cap k'
    = option_map lowerState (repeatMatcher p lo hi i s cap k).
Proof.
  intros Hp Hk.
  assert (K : forall i s, k' (mkState i (map lowerChar s) cap)
                          = option_map lowerState (k (mkState i s cap)))
    by (intros i s; exact (Hk (mkState i s cap))).
  unfold toLowerCase.
  induction s as [| c s IH]; intros lo hi i.
  - pose proof (K i []) as K0; simpl in K0.
    destruct hi as [[| h] |]; simpl; rewrite ?K0; destruct (lo =? 0); reflexivity.
  - pose proof (K i (c :: s)) as Kc; simpl in Kc.
    destruct hi as [[| h] |]; simpl; rewrite ?Hp, ?IH, ?Kc; try reflexivity;
      (destruct (p c); [| destruct (lo =? 0); reflexivity]);
      match goal with
      | |- context [repeatMatcher p ?a ?b ?c' s cap k] =>
          destruct (repeatMatcher p a b c' s cap k)
      end; simpl; try reflexivity; destruct (lo =? 0); reflexivity.
Qed.

(** On a pattern whose classes are blind to case, the matcher does on the
    lower-cased input what it does on the input. *)
Lemma matcher_lower (r : regex) :
  caseBlind r ->
  forall x k k',
    (forall y, k' (lowerState y) = option_map lowerState (k y)) ->
    matcher r (lowerState x) k' = option_map lowerState (matcher r x k).
Proof.
  induction r as [| p | p lo hi | r1 IH1 r2 IH2 | r IH]; intros B x k k' Hk; simpl.
  - apply Hk.
  - destruct (rest x) as [| c s']; simpl; [reflexivity |].
    rewrite (B c); destruct (p c); [| reflexivity].
    exact (Hk (mkState (S (endIndex x)) s' (capture x))).
  - apply repeatMatcher_lower; assumption.
  - destruct B as [B1 B2].
    apply (IH1 B1 x (fun y => matcher r2 y k) (fun y => matcher r2 y k')).
    intros y; apply (IH2 B2); exact Hk.
  - apply (IH B x
             (fun y => k (mkState (endIndex y) (rest y) (Some (endIndex x, endIndex y))))).
    intros y; exact (Hk (mkState (endIndex y) (rest y) (Some (endIndex x, endIndex y)))).
Qed.

Lemma search_lower (r : regex) :
  caseBlind r ->
  forall s i,
    search r i (toLowerCase s)
    = option_map (fun jy => (fst jy, lowerState (snd jy))) (search r i s).
Proof.
  intros B.
  assert (M : forall i s, matchAt r i (toLowerCase s)
                          = option_map lowerState (matchAt r i s)).
  { intros i s; unfold matchAt.
    change (mkState i (toLowerCase s) None) with (lowerState (mkState i s None)).
    apply (matcher_lower r B); reflexivity. }
  induction s as [| c s IH]; intros i.
  - pose proof (M i []) as M0; simpl in M0 |- *.
    destruct (matchAt r i []) as [m |]; simpl in M0 |- *; [| reflexivity].
    injection M0 as M0; rewrite <- M0; reflexivity.
  - pose proof (M i (c :: s)) as Mc.
    change (toLowerCase (c :: s)) with (lowerChar c :: toLowerCase s) in Mc |- *.
    cbn [search]; rewrite Mc.
    destruct (matchAt r i (c :: s)); simpl; [reflexivity | apply IH].
Qed.

Lemma String_match_lower (r : regex) (s : jsstring) :
  caseBlind r ->
  String_match (toLowerCase s) r
  = option_map (fun m => mkMatch (index m) (toLowerCase (match0 m))
                           (option_map toLowerCase (match1 m)))
      (String_match s r).
Proof.
  intros B; unfold String_match; rewrite (search_lower r B).
  destruct (search r 0 s) as [[j y] |]; simpl; [| reflexivity].
  rewrite substring_lower; destruct (capture y) as [[b e] |]; simpl;
    rewrite ?substring_lower; reflexivity.
Qed.

Lemma valueOf_lower (r : regex) (s : jsstring) :
  caseBlind r ->
  valueOf (toLowerCase s) r
  = match String_match s r with
    | None => str "Not Found"
    | Some _ => toLowerCase (valueOf s r)
    end.
Proof.
  intros B; unfold valueOf; rewrite (String_match_lower r s B).
  destruct (String_match s r) as [m |]; simpl; [| reflexivity].
  destruct (match1 m); simpl; [apply trim_lower | reflexivity].
Qed.

Lemma caseBlind_literal (t : jsstring) : caseBlind (literal t).
Proof.
  induction t as [| a t IH]; simpl; [exact I |].
  split; [| exact IH].
  intros c; rewrite canonicalize_lowerChar; reflexivity.
Qed.

Lemma classes_caseBlind (c : ascii) :
  isWhiteSpace (lowerChar c) = isWhiteSpace c
  /\ colonOrSpace (lowerChar c) = colonOrSpace c
  /\ notNewline (lowerChar c) = notNewline c
  /\ digit (lowerChar c) = digit c
  /\ oneOf "-/" (lowerChar c) = oneOf "-/" c.
Proof. destruct c as [[] [] [] [] [] [] [] []]; repeat split. Qed.

Lemma keyPatterns_caseBlind (pattern : KeyPattern) :
  In pattern keyPatterns -> caseBlind (pattern_regex pattern).
Proof.
  assert (L : forall t c,
             Ascii.eqb (canonicalize (lowerChar c)) (canonicalize t)
             = Ascii.eqb (canonicalize c) (canonicalize t))
    by (intros t c; rewrite canonicalize_lowerChar; reflexivity).
  intros [<- | [<- | [<- | [<- | []]]]];
    cbv [pattern_regex patientNameRegex ageRegex genderRegex dateRegex seqs star plus
         caseBlind];
    repeat match goal with
           | |- _ /\ _ => split
           | |- True => exact I
           | |- forall c, _ => intros c; first [apply L | apply (classes_caseBlind c)]
           | |- _ => apply caseBlind_literal
           end.
Qed.

(** X4: on a content of code units below 256, the strings of this
    development, where [toLowerCase] works one code unit at a time, the four
    patterns do not tell capitals from small letters: on the lower-cased
    content each label is found exactly when it is found on the content, and
    its value is the lower-cased value.  (Beyond that range lower-casing
    looks at the letters around, as for a final sigma, and the property is
    not claimed.) *)
Theorem X4_extraction_ignores_case (content : jsstring) :
  extractKeyInformations (toLowerCase content) =
  Ok (map (fun pattern =>
             mkInfo (pattern_label pattern)
               (match String_match content (pattern_regex pattern) with
                | None => str "Not Found"
                | Some _ => toLowerCase (valueOf content (pattern_regex pattern))
                end))
          keyPatterns)
  /\ (forall pattern,
         In pattern keyPatterns ->
         String_match (toLowerCase content) (pattern_regex pattern) = None
         <-> String_match content (pattern_regex pattern) = None).
Proof.
  split.
  - rewrite extractKeyInformations_total; f_equal.
    apply map_ext_in; intros pattern Hp.
    rewrite (valueOf_lower _ content (keyPatterns_caseBlind pattern Hp)); reflexivity.
  - intros pattern Hp.
    rewrite (String_match_lower _ content (keyPatterns_caseBlind pattern Hp)).
    destruct (String_match content (pattern_regex pattern)); simpl;
      split; intros H; try discriminate H; reflexivity.
Qed.

(** ** Contents and the terms found in them *)

Lemma medicalTermsOf_nil (lowerContent : jsstring) :
  medicalTermsOf lowerContent = []
  <-> forall t, In t MEDICAL_TERMS.conditions -> ~ isSubstring t lowerContent.
Proof.
  split.
  - intros E t Hin S.
    assert (H : In t (medicalTermsOf lowerContent)) by (apply medicalTermsOf_In; auto).
    rewrite E in H; exact H.
  - intros H; destruct (medicalTermsOf lowerContent) as [| t l] eqn:E; [reflexivity |].
    assert (Hin : In t (medicalTermsOf lowerContent)) by (rewrite E; left; reflexivity).
    apply medicalTermsOf_In in Hin; destruct Hin as [Hin S].
    exfalso; exact (H t Hin S).
Qed.

Lemma riskFactorsOf_nil (lowerContent : jsstring) :
  riskFactorsOf lowerContent = []
  <-> forall t, In t MEDICAL_TERMS.riskFactors -> ~ isSubstring t lowerContent.
Proof.
  split.
  - intros E t Hin S.
    assert (H : In t (riskFactorsOf lowerContent)) by (apply riskFactorsOf_In; auto).
    rewrite E in H; exact H.
  - intros H; destruct (riskFactorsOf lowerContent) as [| t l] eqn:E; [reflexivity |].
    assert (Hin : In t (riskFactorsOf lowerContent)) by (rewrite E; left; reflexivity).
    apply riskFactorsOf_In in Hin; destruct Hin as [Hin S].
    exfalso; exact (H t Hin S).
Qed.

Lemma generateRecommendations_default (cs rs : list jsstring) :
  generateRecommendations cs rs = [defaultLine] <-> cs = [] /\ rs = [].
Proof.
  rewrite generateRecommendations_cases.
  destruct cs as [| c cs], rs as [| r rs]; split; intros H.
  - split; reflexivity.
  - reflexivity.
  - discriminate H.
  - destruct H as [_ H]; discriminate H.
  - injection H as H.
    unfold specialistLine, defaultLine in H; simpl in H; discriminate H.
  - destruct H as [H _]; discriminate H.
  - discriminate H.
  - destruct H as [H _]; discriminate H.
Qed.

(** X5: the recommendations are the single default line exactly when no term
    of either vocabulary stands in the lower-cased content, that is when
    medicalTerms and riskFactors are both empty. *)
Theorem X5_default_line_iff_no_term (f : File) (content : jsstring) (r : AnalysisResult) :
  analysisOf (Some f) content = Ok r ->
  (recommendations r = [defaultLine]
   <-> (forall t,
           In t MEDICAL_TERMS.conditions \/ In t MEDICAL_TERMS.riskFactors ->
           ~ isSubstring t (toLowerCase content)))
  /\ (recommendations r = [defaultLine] <-> medicalTerms r = [] /\ riskFactors r = []).
Proof.
  intros H.
  destruct (analysisOf_fields f content r H) as (_ & _ & -> & _ & -> & ->).
  rewrite generateRecommendations_default, medicalTermsOf_nil, riskFactorsOf_nil.
  split; [| reflexivity].
  split.
  - intros [H1 H2] t [Ht | Ht]; auto.
  - intros Hn; split; intros t Ht; apply Hn; auto.
Qed.

Lemma X5_default_line_iff_no_term_witness :
  (recommendations
     (mkResult (str "text/plain") (str "0.02 KB")
        (map (fun lv => mkInfo (fst lv) (snd lv))
           (combine labels (map str ["Not Found"; "Not Found"; "Not Found"; "Not Found"]%string)))
        [] [] [] [defaultLine]) = [defaultLine]
   <-> (forall t,
           In t MEDICAL_TERMS.conditions \/ In t MEDICAL_TERMS.riskFactors ->
           ~ isSubstring t (toLowerCase (str "Nothing to report"))))
  /\ (recommendations
        (mkResult (str "text/plain") (str "0.02 KB")
           (map (fun lv => mkInfo (fst lv) (snd lv))
              (combine labels (map str ["Not Found"; "Not Found"; "Not Found"; "Not Found"]%string)))
           [] [] [] [defaultLine]) = [defaultLine]
      <-> @nil jsstring = [] /\ @nil jsstring = []).
Proof.
  apply (X5_default_line_iff_no_term reportTxt (str "Nothing to report")).
  vm_compute; reflexivity.
Defined.

Lemma toLowerCase_app (a b : jsstring) :
  toLowerCase (a ++ b) = toLowerCase a ++ toLowerCase b.
Proof. apply map_app. Qed.

Lemma startsWith_ci_length (t s : jsstring) :
  startsWith_ci s t = true -> length t <= length s.
Proof.
  revert s; induction t as [| a t IH]; intros s H; simpl; [lia |].
  destruct s as [| b s]; simpl in H; [discriminate H |].
  apply andb_true_iff in H; destruct H as [_ H].
  specialize (IH _ H); simpl; lia.
Qed.

Lemma startsWith_ci_app (t s b : jsstring) :
  startsWith_ci s t = true -> startsWith_ci (s ++ b) t = true.
Proof.
  revert s; induction t as [| a t IH]; intros s H; [reflexivity |].
  destruct s as [| c s]; simpl in H |- *; [discriminate H |].
  apply andb_true_iff in H; destruct H as [H1 H2].
  rewrite H1, (IH _ H2); reflexivity.
Qed.

Lemma occurrencesFrom_short (t s : jsstring) (skip : nat) :
  length s < length t -> occurrencesFrom t skip s = 0.
Proof.
  revert skip; induction s as [| c s IH]; intros skip H; [reflexivity |].
  simpl in H |- *.
  destruct skip as [| n]; [| apply IH; lia].
  destruct (startsWith_ci (c :: s) t) eqn:E.
  - apply startsWith_ci_length in E; simpl in E; lia.
  - apply IH; lia.
Qed.

Lemma startsWith_ci_app_inv (t : jsstring) :
  forall s b,
    startsWith_ci (s ++ b) t = true -> length t <= length s -> startsWith_ci s t = true.
Proof.
  induction t as [| a t IH]; intros s b H L; [reflexivity |].
  destruct s as [| c s]; simpl in L; [lia |].
  simpl in H |- *.
  apply andb_true_iff in H; destruct H as [H1 H2].
  rewrite H1, (IH s b H2) by lia; reflexivity.
Qed.

(** Text after the content takes no occurrence away. *)
Lemma occurrencesFrom_app (t b : jsstring) :
  forall a skip, occurrencesFrom t skip a <= occurrencesFrom t skip (a ++ b).
Proof.
  induction a as [| c a IH]; intros skip; [simpl; lia |].
  cbn [app occurrencesFrom].
  destruct skip as [| n]; [| apply IH].
  change (c :: a ++ b) with ((c :: a) ++ b).
  destruct (startsWith_ci (c :: a) t) eqn:E.
  - rewrite (startsWith_ci_app t _ b E); apply le_n_S, IH.
  - destruct (startsWith_ci ((c :: a) ++ b) t) eqn:E'; [| apply IH].
    destruct (Nat.lt_ge_cases (length a) (length t)) as [Hl | Hl].
    + rewrite (occurrencesFrom_short t a 0 Hl); lia.
    + rewrite (startsWith_ci_app_inv t (c :: a) b E') in E by (simpl; lia).
      discriminate E.
Qed.

(** X6: text put before or after a report takes no matched term away, and
    text put after it lowers no confidence score. *)
Theorem X6_more_text_keeps_terms (pre content post : jsstring) :
  (forall term,
      In term (medicalTermsOf (toLowerCase content)) ->
      In term (medicalTermsOf (toLowerCase (pre ++ content ++ post))))
  /\ (forall factor,
         In factor (riskFactorsOf (toLowerCase content)) ->
         In factor (riskFactorsOf (toLowerCase (pre ++ content ++ post))))
  /\ (forall term,
         In term MEDICAL_TERMS.conditions ->
         calculateConfidence (toLowerCase content) term
         <= calculateConfidence (toLowerCase (content ++ post)) term).
Proof.
  assert (S : isSubstring (toLowerCase content) (toLowerCase (pre ++ content ++ post))).
  { exists (toLowerCase pre), (toLowerCase post); rewrite !toLowerCase_app; reflexivity. }
  split; [| split].
  - intros term H; apply medicalTermsOf_In in H; destruct H as [Hin H].
    apply medicalTermsOf_In; split; [exact Hin |].
    exact (isSubstring_trans _ _ _ H S).
  - intros factor H; apply riskFactorsOf_In in H; destruct H as [Hin H].
    apply riskFactorsOf_In; split; [exact Hin |].
    exact (isSubstring_trans _ _ _ H S).
  - intros term Hin.
    pose proof (conditions_nonempty term Hin) as Ht.
    rewrite !(calculateConfidence_occurrences _ term Ht).
    apply Nat.min_le_compat_r.
    pose proof (occurrencesFrom_app term post content 0) as H.
    unfold occurrences; lia.
Qed.

(** ** The extension of a file name *)

Lemma split_from_nonempty (sep : ascii) (s cur : jsstring) : split_from sep cur s <> [].
Proof.
  revert cur; induction s as [| c s IH]; intros cur; simpl; [discriminate |].
  destruct (Ascii.eqb c sep); [discriminate | apply IH].
Qed.

Lemma split_from_no_separator (sep : ascii) (s : jsstring) :
  ~ In sep s -> forall cur, split_from sep cur s = [rev cur ++ s].
Proof.
  induction s as [| c s IH]; intros N cur; simpl; [rewrite app_nil_r; reflexivity |].
  destruct (Ascii.eqb_spec c sep) as [-> | Hc]; [exfalso; apply N; left; reflexivity |].
  rewrite IH by (intros H; apply N; right; exact H).
  simpl; rewrite <- app_assoc; reflexivity.
Qed.

Lemma split_from_after_separator (sep : ascii) (b : jsstring) :
  forall a cur,
    last (split_from sep cur (a ++ sep :: b)) [] = last (split_from sep [] b) [].
Proof.
  assert (L : forall (x : jsstring) l, l <> [] -> last (x :: l) [] = last l []).
  { intros x [| y l] H; [contradiction | reflexivity]. }
  induction a as [| c a IH]; intros cur; simpl.
  - rewrite Ascii.eqb_refl; apply L, split_from_nonempty.
  - destruct (Ascii.eqb c sep); [| apply IH].
    rewrite L by apply split_from_nonempty; apply IH.
Qed.

(** X7: the extension is the lower-cased part of the name after its last
    dot, and the lower-cased name itself when the name has no dot; a file
    whose whole name is a supported extension, such as TXT, is read as one
    of that kind. *)
Theorem X7_extension_of_name (file : File) :
  (forall base ext,
      name file = base ++ "."%char :: ext ->
      ~ In "."%char ext ->
      extension file = toLowerCase ext)
  /\ (~ In "."%char (name file) -> extension file = toLowerCase (name file))
  /\ fileExtension file = Ok (extension file).
Proof.
  split; [| split].
  - intros base ext E N; unfold extension, split.
    rewrite E, split_from_after_separator, (split_from_no_separator _ ext N); reflexivity.
  - intros N; unfold extension, split.
    rewrite (split_from_no_separator _ _ N); reflexivity.
  - apply fileExtension_extension.
Qed.

(** ** Workbooks *)

Lemma fold_left_app_concat (l : list jsstring) :
  forall acc, fold_left (fun content csv => content ++ csv) l acc = acc ++ concat l.
Proof.
  induction l as [| x l IH]; intros acc; simpl; [rewrite app_nil_r; reflexivity |].
  rewrite IH, app_assoc; reflexivity.
Qed.

Lemma excelContent_concat (sheets : list jsstring) : excelContent sheets = concat sheets.
Proof. unfold excelContent; rewrite fold_left_app_concat; reflexivity. Qed.

(** X8: the content of a workbook is the CSV texts of its sheets put end to
    end in the order of the sheets, with nothing between two sheets: the
    content of two workbooks one after the other is the two contents end to
    end, and a workbook without sheets has the empty content. *)
Theorem X8_workbook_content (XLSX_sheets : File -> result (list jsstring))
    (file : File) (sheets : list jsstring) (w : World) :
  XLSX_sheets file = Ok sheets ->
  parseExcel XLSX_sheets file w
    = (Ok (concat sheets), mkWorld (state w) (trace w ++ [Call_parseExcel]))
  /\ (forall more, excelContent (sheets ++ more) = excelContent sheets ++ excelContent more)
  /\ (sheets = [] -> excelContent sheets = []).
Proof.
  intros H; split; [| split].
  - unfold parseExcel, bind, emit, lift, ret; simpl.
    rewrite H, excelContent_concat; reflexivity.
  - intros more; rewrite !excelContent_concat; apply concat_app.
  - intros ->; reflexivity.
Qed.

Lemma X8_workbook_content_witness :
  parseExcel (sheetsOf [str "Name,Age"; str "Jane Doe,47"]) reportTxt initialWorld
    = (Ok (str "Name,AgeJane Doe,47"), mkWorld initialState [Call_parseExcel])
  /\ (forall more,
         excelContent ([str "Name,Age"; str "Jane Doe,47"] ++ more)
         = excelContent [str "Name,Age"; str "Jane Doe,47"] ++ excelContent more)
  /\ ([str "Name,Age"; str "Jane Doe,47"] = [] ->
      excelContent [str "Name,Age"; str "Jane Doe,47"] = []).
Proof.
  exact (X8_workbook_content (sheetsOf [str "Name,Age"; str "Jane Doe,47"]) reportTxt
           [str "Name,Age"; str "Jane Doe,47"] initialWorld eq_refl).
Defined.

(** ** What an upload leaves *)

Section UploadOutcome.

Variable readAsText : File -> result jsstring.
Variable Papa_parse : File -> result (list (list jsstring)).
Variable XLSX_sheets : File -> result (list jsstring).

(** The state and the trace after an upload, by what the reader of the file
    comes to and by what the analysis returns. *)
Lemma handleFileUpload_outcome (rendered : option File) (file : File) (w : World) :
  handleFileUpload readAsText Papa_parse XLSX_sheets rendered (Some file) w
  = match readerOutcome readAsText Papa_parse XLSX_sheets file with
    | None => (Ok tt, failed file (fileContent (state w)) w [] unsupportedMessage)
    | Some (call, Throw e) => (Ok tt, failed file (fileContent (state w)) w [call] e)
    | Some (call, Pending) => (Pending, waiting file w [call])
    | Some (call, Ok content) =>
        (Ok tt,
         match analysisOf rendered content with
         | Ok r =>
             mkWorld (mkComponent (Some file) content r false)
                     (trace w ++ [call; Call_performDetailedAnalysis content])
         | Throw e =>
             failed file content w [call; Call_performDetailedAnalysis content] e
         | Pending => w
         end)
    end.
Proof.
  assert (Run : forall content, analysisOf rendered content <> Pending)
    by (intros content; apply analysisOf_settles).
  unfold handleFileUpload, parseFile, try_catch_finally, bind, lift, throw, readerOutcome.
  rewrite fileExtension_extension; cbn beta iota.
  destruct (strEqb (extension file) (str "txt")).
  { unfold parseTextFile, performDetailedAnalysis, bind, lift; simpl.
    destruct (readAsText file) as [content | e |]; simpl.
    - specialize (Run content).
      unfold failed; destruct (analysisOf rendered content); simpl;
        rewrite <- ?app_assoc; try reflexivity; contradiction.
    - unfold failed; simpl; rewrite <- !app_assoc; reflexivity.
    - reflexivity. }
  destruct (strEqb (extension file) (str "csv")).
  { unfold parseCSV, performDetailedAnalysis, bind, lift, ret; simpl.
    destruct (Papa_parse file) as [rows | e |]; simpl.
    - specialize (Run (csvContent rows)).
      unfold failed; destruct (analysisOf rendered (csvContent rows)); simpl;
        rewrite <- ?app_assoc; try reflexivity; contradiction.
    - unfold failed; simpl; rewrite <- !app_assoc; reflexivity.
    - reflexivity. }
  destruct (strEqb (extension file) (str "xlsx") || strEqb (extension file) (str "xls")).
  { unfold parseExcel, performDetailedAnalysis, bind, lift, ret; simpl.
    destruct (XLSX_sheets file) as [sheets | e |]; simpl.
    - specialize (Run (excelContent sheets)).
      unfold failed; destruct (analysisOf rendered (excelContent sheets)); simpl;
        rewrite <- ?app_assoc; try reflexivity; contradiction.
    - unfold failed; simpl; rewrite <- !app_assoc; reflexivity.
    - reflexivity. }
  unfold failed; simpl; rewrite <- app_assoc; reflexivity.
Qed.

End UploadOutcome.

Section Sessions.

Variable readAsText : File -> result jsstring.
Variable Papa_parse : File -> result (list (list jsstring)).
Variable XLSX_sheets : File -> result (list jsstring).

Lemma lastUploaded_snoc (files : list File) (f : File) :
  lastUploaded (files ++ [f]) = Some f.
Proof. unfold lastUploaded; rewrite map_app; apply last_last. Qed.

Lemma lastUploaded_In (files : list File) (g : File) :
  lastUploaded files = Some g -> In g files.
Proof.
  unfold lastUploaded; induction files as [| f files IH]; simpl; [discriminate |].
  destruct files as [| f' files].
  - intros H; injection H as ->; left; reflexivity.
  - intros H; right; apply IH; exact H.
Qed.

Lemma lastUploaded_none (files : list File) : lastUploaded files = None <-> files = [].
Proof.
  split; [| intros ->; reflexivity].
  destruct files as [| f files]; [reflexivity |].
  assert (E : f :: files = removelast (f :: files) ++ [last (f :: files) f])
    by (apply app_removelast_last; discriminate).
  rewrite E, lastUploaded_snoc; discriminate.
Qed.

Lemma stuck_snoc (files : list File) (f : File) :
  stuck readAsText Papa_parse XLSX_sheets (files ++ [f])
  = pendingRead readAsText Papa_parse XLSX_sheets f.
Proof. unfold stuck; rewrite lastUploaded_snoc; reflexivity. Qed.

Lemma sessionInvariant_none (files : list File) (s : State) :
  sessionInvariant readAsText Papa_parse XLSX_sheets files s ->
  reportFile s = None -> analysisResults s = initialResults.
Proof.
  intros (_ & R & [H | (g & Hg & _)]) N; [exact H |].
  rewrite N in R; symmetry in R; apply lastUploaded_none in R.
  rewrite R in Hg; destruct Hg.
Qed.

(** An upload keeps the invariant of the session. *)
Lemma upload_invariant (seen : list File) (f : File) (w : World) :
  sessionInvariant readAsText Papa_parse XLSX_sheets seen (state w) ->
  sessionInvariant readAsText Papa_parse XLSX_sheets (seen ++ [f])
    (state (upload readAsText Papa_parse XLSX_sheets f w)).
Proof.
  intros Inv.
  pose proof (sessionInvariant_none seen (state w) Inv) as Hnone.
  destruct Inv as (_ & R & Res).
  assert (Keep : analysisResults (state w) = initialResults
                 \/ exists g, In g (seen ++ [f])
                              /\ analysisOf (Some g) (fileContent (state w))
                                 = Ok (analysisResults (state w))).
  { destruct Res as [H | (g & Hg & H)]; [left; exact H | right].
    exists g; split; [apply in_or_app; left; exact Hg | exact H]. }
  unfold sessionInvariant; rewrite stuck_snoc, lastUploaded_snoc.
  unfold upload, pendingRead; rewrite handleFileUpload_outcome.
  destruct (readerOutcome readAsText Papa_parse XLSX_sheets f)
    as [[call [content | e |]] |]; cbn [snd].
  - destruct (reportFile (state w)) as [g |] eqn:Eg.
    + destruct (analysisOf_total g content) as [r A]; rewrite A; simpl.
      split; [reflexivity |].
      split; [reflexivity |].
      right; exists g; split; [| exact A].
      apply in_or_app; left; apply lastUploaded_In; symmetry; exact R.
    + rewrite analysisOf_null; simpl.
      split; [reflexivity |].
      split; [reflexivity |].
      left; apply Hnone; reflexivity.
  - simpl; split; [reflexivity | split; [reflexivity | exact Keep]].
  - simpl; split; [reflexivity | split; [reflexivity | exact Keep]].
  - simpl; split; [reflexivity | split; [reflexivity | exact Keep]].
Qed.

Lemma uploadAll_invariant (files : list File) :
  forall seen w,
    sessionInvariant readAsText Papa_parse XLSX_sheets seen (state w) ->
    sessionInvariant readAsText Papa_parse XLSX_sheets (seen ++ files)
      (state (uploadAll readAsText Papa_parse XLSX_sheets files w)).
Proof.
  induction files as [| f files IH]; intros seen w Inv; simpl.
  - rewrite app_nil_r; exact Inv.
  - replace (seen ++ f :: files) with ((seen ++ [f]) ++ files)
      by (rewrite <- app_assoc; reflexivity).
    apply IH, upload_invariant, Inv.
Qed.

Lemma initial_invariant :
  sessionInvariant readAsText Papa_parse XLSX_sheets [] initialState.
Proof. repeat split; left; reflexivity. Qed.

(** X9: when the reader of a supported file fails with a message, the
    upload ends with that message on the console and in an alert, after the
    one call of the reader and without a call of the analysis; the results
    and the content stay as they were, the file is the new one and the
    component is not left analyzing. *)
Theorem X9_reader_failure (rendered : option File) (file : File) (w : World)
    (call : Event) (e : jsstring) :
  readerOutcome readAsText Papa_parse XLSX_sheets file = Some (call, Throw e) ->
  let out :=
    handleFileUpload readAsText Papa_parse XLSX_sheets rendered (Some file) w in
  fst out = Ok tt
  /\ trace (snd out) =
       trace w ++ [call;
                   Console_error (str "File parsing error: " ++ e);
                   Alert (str "Error parsing file: " ++ e)]
  /\ analysisResults (state (snd out)) = analysisResults (state w)
  /\ fileContent (state (snd out)) = fileContent (state w)
  /\ reportFile (state (snd out)) = Some file
  /\ isAnalyzing (state (snd out)) = false.
Proof.
  intros H out; subst out.
  rewrite handleFileUpload_outcome, H.
  repeat split.
Qed.

(** X10: an upload whose reader gives a content, made when the state holds
    a file, stores the content and the record of its analysis; the type and
    the size of the record are those of the file the state held before the
    upload, not those of the file uploaded. *)
Theorem X10_upload_after_a_file (g file : File) (w : World) (call : Event)
    (content : jsstring) :
  reportFile (state w) = Some g ->
  readerOutcome readAsText Papa_parse XLSX_sheets file = Some (call, Ok content) ->
  let w' := upload readAsText Papa_parse XLSX_sheets file w in
  fileContent (state w') = content
  /\ analysisOf (Some g) content = Ok (analysisResults (state w'))
  /\ fileType (analysisResults (state w')) = type g
  /\ fileSize (analysisResults (state w')) = toFixed2_KB (size g) ++ str " KB"
  /\ reportFile (state w') = Some file
  /\ isAnalyzing (state w') = false
  /\ trace w' = trace w ++ [call; Call_performDetailedAnalysis content].
Proof.
  intros Hg H w'; subst w'; unfold upload.
  rewrite handleFileUpload_outcome, H, Hg; cbn [snd].
  destruct (analysisOf_total g content) as [r A]; rewrite A; simpl.
  destruct (analysisOf_fields g content r A) as (T & Z & _).
  repeat split; assumption.
Qed.

(** X11: the first upload after the component is mounted gives no results,
    whatever the file and whatever its reader comes to: the results stay the
    initial ones and the label shows the name and size of the file.  When
    the promise of the reader is never settled, nothing follows the call of
    the reader: no message, and the view stays on the analyzing panel.  In
    every other case the upload ends with a message on the console and in an
    alert, and the view shows the panel that tells that no significant
    medical information was found. *)
Theorem X11_first_upload_shows_nothing (file : File) :
  let w := upload readAsText Papa_parse XLSX_sheets file initialWorld in
  analysisResults (state w) = initialResults
  /\ fileLabel (render (state w))
     = Some (name file ++ str " - " ++ toFixed2_KB (size file) ++ str " KB")
  /\ match readerOutcome readAsText Papa_parse XLSX_sheets file with
     | Some (call, Pending) =>
         trace w = [call] /\ panel (render (state w)) = AnalyzingPanel
     | _ =>
         (exists events e,
             trace w = events ++ [Console_error (str "File parsing error: " ++ e);
                                  Alert (str "Error parsing file: " ++ e)])
         /\ panel (render (state w)) = NoInformationPanel
     end.
Proof.
  intros w; subst w; unfold upload.
  rewrite handleFileUpload_outcome.
  change (reportFile (state initialWorld)) with (@None File).
  destruct (readerOutcome readAsText Papa_parse XLSX_sheets file)
    as [[call [content | e |]] |]; cbn [snd]; rewrite ?analysisOf_null;
    (split; [reflexivity | split; [reflexivity |]]).
  - split; [| reflexivity].
    exists [call; Call_performDetailedAnalysis content], (TypeError_read "null" "type").
    reflexivity.
  - split; [| reflexivity].
    exists [call], e; reflexivity.
  - split; reflexivity.
  - split; [| reflexivity].
    exists [], unsupportedMessage; reflexivity.
Qed.

(** X12: after any uploads from the mounted component, made one after the
    other, the component is analyzing exactly when the promise of the reader
    of the file uploaded last was never settled; the file of the state is
    the file uploaded last,
    also when its upload failed or waits; and the results are the initial
    ones or the record of an analysis of the content the state holds, made
    with one of the files uploaded: a failed upload never leaves a partial
    record. *)
Theorem X12_session_invariant (files : list File) :
  let s := state (uploadAll readAsText Papa_parse XLSX_sheets files initialWorld) in
  isAnalyzing s = stuck readAsText Papa_parse XLSX_sheets files
  /\ reportFile s = lastUploaded files
  /\ (analysisResults s = initialResults
      \/ exists g, In g files /\ analysisOf (Some g) (fileContent s) = Ok (analysisResults s)).
Proof.
  intros s; subst s.
  exact (uploadAll_invariant files [] initialWorld initial_invariant).
Qed.

(** X13: after any uploads from the mounted component, made one after the
    other, the view is the analyzing panel exactly when the promise of the
    reader of the file uploaded last was never settled; it shows no panel
    exactly before the
    first upload; when it shows the results panel, the four labels and at
    least one condition are listed, and the recommendations are the
    specialist line for the listed conditions alone when no risk factor is
    listed, and that line, the lifestyle line for the listed risk factors
    and the check-up line when some are.  The default line is never shown,
    and neither are the results of a report with risk factors only. *)
Theorem X13_view_of_a_session (files : list File) :
  let s := state (uploadAll readAsText Papa_parse XLSX_sheets files initialWorld) in
  (panel (render s) = AnalyzingPanel
   <-> stuck readAsText Papa_parse XLSX_sheets files = true)
  /\ (panel (render s) = NoPanel <-> files = [])
  /\ (forall infos pcs risks recs,
         panel (render s) = ResultsPanel infos pcs risks recs ->
         map label infos = labels
         /\ map condition_name pcs <> []
         /\ match risks with
            | NoRiskFactors => recs = [specialistLine (map condition_name pcs)]
            | RiskList rs =>
                rs <> []
                /\ recs = [specialistLine (map condition_name pcs); lifestyleLine rs;
                           checkUpLine]
            end
         /\ ~ In defaultLine recs)
  /\ (medicalTerms (analysisResults s) = [] -> files <> [] ->
      stuck readAsText Papa_parse XLSX_sheets files = false ->
      panel (render s) = NoInformationPanel).
Proof.
  intros s.
  destruct (uploadAll_invariant files [] initialWorld initial_invariant)
    as (An & R & Res).
  fold s in An, R, Res; simpl app in An, R, Res.
  assert (Hfile : reportFile s = None <-> files = [])
    by (rewrite R; apply lastUploaded_none).
  unfold render; cbn [panel]; rewrite An.
  split; [| split; [| split]].
  - destruct (stuck readAsText Papa_parse XLSX_sheets files);
      [split; reflexivity |].
    split; [| discriminate].
    destruct (0 <? length (medicalTerms (analysisResults s))); [discriminate |].
    destruct (reportFile s); discriminate.
  - destruct (stuck readAsText Papa_parse XLSX_sheets files) eqn:St.
    + split; [discriminate |].
      intros E; rewrite E in St; discriminate St.
    + destruct (0 <? length (medicalTerms (analysisResults s))) eqn:M.
      * split; [discriminate |].
        intros E; exfalso.
        destruct Res as [I | (g & Hg & _)]; [| rewrite E in Hg; exact Hg].
        rewrite I in M; discriminate M.
      * rewrite <- Hfile; destruct (reportFile s); split; congruence.
  - intros infos pcs risks recs.
    destruct (stuck readAsText Papa_parse XLSX_sheets files); [discriminate |].
    destruct (0 <? length (medicalTerms (analysisResults s))) eqn:M;
      [| destruct (reportFile s); discriminate].
    intros E; injection E as <- <- <- <-.
    destruct Res as [I | (g & _ & A)]; [rewrite I in M; discriminate M |].
    destruct (analysisOf_fields g _ _ A) as (_ & _ & Em & Ep & Ef & Er).
    assert (K : keyInformations (analysisResults s)
                = map (fun pattern =>
                         mkInfo (pattern_label pattern)
                           (valueOf (fileContent s) (pattern_regex pattern)))
                      keyPatterns).
    { unfold analysisOf in A; rewrite extractKeyInformations_total in A; simpl in A.
      injection A as A; rewrite <- A; reflexivity. }
    assert (N : map condition_name (potentialConditions (analysisResults s))
                = medicalTermsOf (toLowerCase (fileContent s))).
    { rewrite Ep; unfold potentialConditionsOf; rewrite map_map; apply map_id. }
    rewrite N, Er, Ef, K; rewrite Em in M.
    destruct (medicalTermsOf (toLowerCase (fileContent s))) as [| c cs] eqn:T;
      [discriminate M |].
    split; [reflexivity |].
    split; [discriminate |].
    rewrite generateRecommendations_cases.
    assert (D : specialistLine (c :: cs) <> defaultLine).
    { intros Hd; unfold specialistLine, defaultLine in Hd; simpl in Hd; discriminate Hd. }
    destruct (riskFactorsOf (toLowerCase (fileContent s))) as [| r rs]; simpl.
    + split; [reflexivity |].
      intros [H | []]; exact (D H).
    + split; [split; [discriminate | reflexivity] |].
      intros [H | [H | [H | []]]]; [exact (D H) | |].
      * unfold lifestyleLine, defaultLine in H; simpl in H; discriminate H.
      * discriminate H.
  - intros M Hf St; rewrite St, M; simpl.
    destruct (reportFile s) eqn:E; [reflexivity |].
    exfalso; apply Hf, Hfile; reflexivity.
Qed.

End Sessions.

Lemma X9_reader_failure_witness :
  trace (upload (textOf []) (rowsFailing (str "Unexpected end of input")) (sheetsOf [])
           dataCsv initialWorld)
    = [Call_parseCSV;
       Console_error (str "File parsing error: " ++ str "Unexpected end of input");
       Alert (str "Error parsing file: " ++ str "Unexpected end of input")]
  /\ analysisResults
       (state (upload (textOf []) (rowsFailing (str "Unexpected end of input")) (sheetsOf [])
                 dataCsv initialWorld))
     = initialResults.
Proof.
  destruct (X9_reader_failure (textOf []) (rowsFailing (str "Unexpected end of input"))
              (sheetsOf []) None dataCsv initialWorld Call_parseCSV
              (str "Unexpected end of input") eq_refl)
    as (_ & T & R & _).
  split; [exact T | exact R].
Defined.

Lemma X10_upload_after_a_file_witness :
  fileType
    (analysisResults
       (state (upload (textOf (str "asthma")) (rowsOf []) (sheetsOf []) reportTxt
                 (upload (textOf (str "asthma")) (rowsOf []) (sheetsOf []) notesTxt
                    initialWorld))))
  = type notesTxt.
Proof.
  destruct (X10_upload_after_a_file (textOf (str "asthma")) (rowsOf []) (sheetsOf [])
              notesTxt reportTxt
              (upload (textOf (str "asthma")) (rowsOf []) (sheetsOf []) notesTxt initialWorld)
              Call_parseTextFile (str "asthma") eq_refl eq_refl)
    as (_ & _ & T & _).
  exact T.
Defined.

(** ** The size of a file *)

Lemma string_of_uint_digits (d : Decimal.uint) :
  Forall (fun c => digit c = true) (str (NilEmpty.string_of_uint d)).
Proof. induction d; simpl; constructor; solve [reflexivity | assumption]. Qed.

Lemma repeat_zero_digits (n : nat) : Forall (fun c => digit c = true) (repeat "0"%char n).
Proof. induction n; simpl; constructor; solve [reflexivity | assumption]. Qed.

(** X14: the size of a file is written as one or more decimal digits, a
    point and exactly two decimal digits, whatever the size, and the size of
    an analysis record is that followed by a space and KB. *)
Theorem X14_size_has_two_decimals (f : File) :
  (exists a b,
      toFixed2_KB (size f) = a ++ "."%char :: b
      /\ a <> [] /\ length b = 2
      /\ Forall (fun c => digit c = true) a
      /\ Forall (fun c => digit c = true) b)
  /\ (forall content r,
         analysisOf (Some f) content = Ok r ->
         fileSize r = toFixed2_KB (size f) ++ str " KB").
Proof.
  split; [| intros content r H; apply (analysisOf_fields f content r H)].
  unfold toFixed2_KB.
  set (m := decimal ((size f * 100 + 512) / 1024)).
  set (m' := repeat "0"%char (3 - length m) ++ m).
  assert (L : 3 <= length m').
  { unfold m'; rewrite length_app, repeat_length; lia. }
  assert (D : Forall (fun c => digit c = true) m').
  { unfold m'; apply Forall_app; split;
      [apply repeat_zero_digits | apply string_of_uint_digits]. }
  rewrite <- (firstn_skipn (length m' - 2) m') in D.
  apply Forall_app in D; destruct D as [Da Db].
  exists (firstn (length m' - 2) m'), (skipn (length m' - 2) m').
  split; [reflexivity |].
  split; [| split; [| split; assumption]].
  - intros E; apply (f_equal (@length ascii)) in E.
    rewrite length_firstn in E; simpl in E; lia.
  - rewrite length_skipn; lia.
Qed.

(** ** When a pattern is found *)

Lemma repeatMatcher_complete (p : ascii -> bool) (k : Continuation)
    (cap : option (nat * nat)) (s' : jsstring) :
  forall w lo hi i,
    Forall (fun c => p c = true) w ->
    lo <= length w ->
    match hi with Some h => length w <= h | None => True end ->
    k (mkState (i + length w) s' cap) <> None ->
    repeatMatcher p lo hi i (w ++ s') cap k <> None.
Proof.
  induction w as [| c w IH]; intros lo hi i Fw Lw Hw K.
  - simpl in Lw, K; rewrite Nat.add_0_r in K.
    assert (lo = 0) by lia; subst lo.
    destruct s' as [| c s'], hi as [[| h] |]; simpl; try exact K;
      destruct (p c); try exact K;
      match goal with
      | |- match ?m with _ => _ end <> None => destruct m; [discriminate | exact K]
      end.
  - inversion Fw as [| c' w' Pc Fw' E]; subst.
    simpl in Lw, Hw, K; rewrite <- plus_n_Sm in K.
    assert (Rec : forall hi',
               match hi' with Some h => length w <= h | None => True end ->
               repeatMatcher p (pred lo) hi' (S i) (w ++ s') cap k <> None).
    { intros hi' Hw'; apply IH; [exact Fw' | lia | exact Hw' | exact K]. }
    destruct hi as [[| h] |]; simpl; [lia | |]; rewrite Pc.
    + specialize (Rec (Some h) ltac:(simpl; lia)).
      destruct (repeatMatcher p (pred lo) (Some h) (S i) (w ++ s') cap k);
        [discriminate | contradiction].
    + specialize (Rec None I).
      destruct (repeatMatcher p (pred lo) None (S i) (w ++ s') cap k);
        [discriminate | contradiction].
Qed.

(** The matcher finds a word of the pattern that stands at the start of the
    input, when the continuation takes what comes after it. *)
Lemma matcher_complete (r : regex) :
  forall x k w s',
    rest x = w ++ s' ->
    matches r w ->
    (forall cap, k (mkState (endIndex x + length w) s' cap) <> None) ->
    matcher r x k <> None.
Proof.
  induction r as [| p | p lo hi | r1 IH1 r2 IH2 | r IH]; intros x k w s' R M K; simpl in M |- *.
  - subst w; simpl in R, K; rewrite Nat.add_0_r in K.
    specialize (K (capture x)); rewrite <- R in K; destruct x; exact K.
  - destruct M as (c & -> & Pc); simpl in R, K.
    rewrite R, Pc.
    replace (S (endIndex x)) with (endIndex x + 1) by lia; apply K.
  - destruct M as (Fw & Lw & Hw).
    rewrite R; apply repeatMatcher_complete; auto.
  - destruct M as (w1 & w2 & -> & M1 & M2).
    apply (IH1 x _ w1 (w2 ++ s')); [rewrite R, app_assoc; reflexivity | exact M1 |].
    intros cap.
    apply (IH2 _ k w2 s'); [reflexivity | exact M2 |].
    intros cap'; simpl; rewrite <- Nat.add_assoc, <- length_app; apply K.
  - apply (IH x _ w s' R M).
    intros cap; apply K.
Qed.

Lemma search_complete (r : regex) (w post : jsstring) :
  matches r w -> forall pre i, search r i (pre ++ w ++ post) <> None.
Proof.
  intros M.
  assert (Here : forall i, matchAt r i (w ++ post) <> None).
  { intros i; unfold matchAt.
    apply (matcher_complete r _ Some w post); [reflexivity | exact M | discriminate]. }
  induction pre as [| c pre IH]; intros i.
  - simpl app; specialize (Here i).
    destruct (w ++ post); simpl; destruct (matchAt r i _); try discriminate; contradiction.
  - simpl; destruct (matchAt r i _); [discriminate | apply IH].
Qed.

(** X15: a label has no match, and the value Not Found, exactly when no
    word of its pattern stands anywhere in the content. *)
Theorem X15_not_found_iff_no_word (content : jsstring) (pattern : KeyPattern) :
  In pattern keyPatterns ->
  (String_match content (pattern_regex pattern) = None
   <-> ~ exists pre w post,
           content = pre ++ w ++ post /\ matches (pattern_regex pattern) w)
  /\ (String_match content (pattern_regex pattern) = None ->
      valueOf content (pattern_regex pattern) = str "Not Found").
Proof.
  intros Hp.
  destruct (keyPatterns_one_group pattern Hp) as [B G].
  split.
  - split.
    + intros N (pre & w & post & -> & M).
      unfold String_match in N.
      pose proof (search_complete (pattern_regex pattern) w post M pre 0) as S.
      destruct (search (pattern_regex pattern) 0 (pre ++ w ++ post)) as [[j y] |];
        [discriminate N | contradiction].
    + intros N.
      destruct (String_match content (pattern_regex pattern)) as [m |] eqn:E;
        [| reflexivity].
      exfalso; apply N.
      destruct (String_match_sound _ content m B G E) as (pre & w & post & Ec & _ & _ & M & _).
      exists pre, w, post; auto.
  - intros N; unfold valueOf; rewrite N; reflexivity.
Qed.

Lemma X15_not_found_iff_no_word_witness :
  (String_match (str "Gender: Female") ageRegex = None
   <-> ~ exists pre w post,
           str "Gender: Female" = pre ++ w ++ post /\ matches ageRegex w)
  /\ (String_match (str "Gender: Female") ageRegex = None ->
      valueOf (str "Gender: Female") ageRegex = str "Not Found").
Proof.
  apply (X15_not_found_iff_no_word (str "Gender: Female") (mkPattern (str "Age") ageRegex)).
  right; left; reflexivity.
Defined.

(** ** The lines of the example, wherever they stand *)

Lemma repeatMatcher_shift (p : ascii -> bool) (k k' : Continuation) (d : nat)
    (cap : option (nat * nat)) :
  (forall y, k' (shiftState d y) = option_map (shiftState d) (k y)) ->
  forall s lo hi i,
    repeatMatcher p lo hi (d + i) s (shiftCapture d cap) k'
    = option_map (shiftState d) (repeatMatcher p lo hi i s cap k).
Proof.
  intros Hk.
  assert (K : forall i s, k' (mkState (d + i) s (shiftCapture d cap))
                          = option_map (shiftState d) (k (mkState i s cap)))
    by (intros i s; exact (Hk (mkState i s cap))).
  induction s as [| c s IH]; intros lo hi i.
  - destruct hi as [[| h] |]; simpl; rewrite ?K; destruct (lo =? 0); reflexivity.
  - destruct hi as [[| h] |]; simpl; rewrite ?plus_n_Sm, ?IH, ?K; try reflexivity;
      (destruct (p c); [| destruct (lo =? 0); reflexivity]);
      match goal with
      | |- context [repeatMatcher p ?a ?b ?c' s cap k] =>
          destruct (repeatMatcher p a b c' s cap k)
      end; simpl; try reflexivity; destruct (lo =? 0); reflexivity.
Qed.

(** The matcher does at an index moved by [d] what it does at the index. *)
Lemma matcher_shift (r : regex) (d : nat) :
  forall x k k',
    (forall y, k' (shiftState d y) = option_map (shiftState d) (k y)) ->
    matcher r (shiftState d x) k' = option_map (shiftState d) (matcher r x k).
Proof.
  induction r as [| p | p lo hi | r1 IH1 r2 IH2 | r IH]; intros x k k' Hk; simpl.
  - apply Hk.
  - destruct (rest x) as [| c s']; [reflexivity |].
    destruct (p c); [| reflexivity].
    rewrite plus_n_Sm.
    exact (Hk (mkState (S (endIndex x)) s' (capture x))).
  - apply repeatMatcher_shift; assumption.
  - apply (IH1 x (fun y => matcher r2 y k) (fun y => matcher r2 y k')).
    intros y; apply IH2; exact Hk.
  - apply (IH x
             (fun y => k (mkState (endIndex y) (rest y) (Some (endIndex x, endIndex y))))).
    intros y; exact (Hk (mkState (endIndex y) (rest y) (Some (endIndex x, endIndex y)))).
Qed.

Lemma matchAt_shift (r : regex) (d i : nat) (s : jsstring) :
  matchAt r (d + i) s = option_map (shiftState d) (matchAt r i s).
Proof.
  unfold matchAt.
  change (mkState (d + i) s None) with (shiftState d (mkState i s None)).
  apply matcher_shift; reflexivity.
Qed.

Lemma search_shift (r : regex) (d : nat) :
  forall s i,
    search r (d + i) s
    = option_map (fun jy => (d + fst jy, shiftState d (snd jy))) (search r i s).
Proof.
  induction s as [| c s IH]; intros i; simpl; rewrite matchAt_shift.
  - destruct (matchAt r i []); reflexivity.
  - destruct (matchAt r i (c :: s)); simpl; [reflexivity |].
    rewrite plus_n_Sm; apply IH.
Qed.

Lemma search_skip (r : regex) (s : jsstring) :
  forall a i,
    (forall j, j < length a -> matchAt r (i + j) (skipn j (a ++ s)) = None) ->
    search r i (a ++ s) = search r (i + length a) s.
Proof.
  induction a as [| c a IH]; intros i H; simpl.
  - rewrite Nat.add_0_r; reflexivity.
  - pose proof (H 0 ltac:(simpl; lia)) as H0.
    rewrite Nat.add_0_r in H0; simpl in H0; rewrite H0.
    rewrite <- plus_n_Sm; apply (IH (S i)).
    intros j Hj.
    pose proof (H (S j) ltac:(simpl; lia)) as Hs.
    rewrite <- plus_n_Sm in Hs; exact Hs.
Qed.

Lemma noWordBefore_matchAt (r : regex) (a s : jsstring) (i j : nat) :
  boundsInOrder r = true ->
  groups r <= 1 ->
  noWordBefore r a (a ++ s) ->
  j < length a ->
  matchAt r i (skipn j (a ++ s)) = None.
Proof.
  intros B G N Hj.
  destruct (matchAt r i (skipn j (a ++ s))) as [y |] eqn:E; [| reflexivity].
  exfalso; unfold matchAt in E.
  destruct (matcher_sound r B G _ _ _ E) as (y' & w & _ & R & _ & M & _).
  simpl in R.
  assert (L : length a <= length (firstn j (a ++ s))).
  { apply (N (firstn j (a ++ s)) w (rest y')); [| exact M].
    rewrite <- R; symmetry; apply firstn_skipn. }
  rewrite length_firstn in L; lia.
Qed.

Lemma substring_shift (a s : jsstring) (b e : nat) :
  substring (a ++ s) (length a + b) (length a + e) = substring s b e.
Proof.
  unfold substring.
  replace (length a + e - (length a + b)) with (e - b) by lia.
  f_equal.
  rewrite Nat.add_comm, <- skipn_skipn, skipn_length_app; reflexivity.
Qed.

(** Text before which no word of the pattern stands leaves the match as it
    is, but for its index. *)
Lemma String_match_after (r : regex) (a s : jsstring) :
  boundsInOrder r = true ->
  groups r <= 1 ->
  noWordBefore r a (a ++ s) ->
  String_match (a ++ s) r
  = option_map (fun m => mkMatch (length a + index m) (match0 m) (match1 m))
      (String_match s r).
Proof.
  intros B G N; unfold String_match.
  rewrite (search_skip r s a 0)
    by (intros j Hj; apply noWordBefore_matchAt; assumption).
  rewrite Nat.add_comm, search_shift.
  destruct (search r 0 s) as [[j y] |]; simpl; [| reflexivity].
  rewrite substring_shift; f_equal; f_equal.
  destruct (capture y) as [[b e] |]; simpl; [| reflexivity].
  rewrite substring_shift; reflexivity.
Qed.

Lemma valueOf_after (r : regex) (a s : jsstring) :
  boundsInOrder r = true ->
  groups r <= 1 ->
  noWordBefore r a (a ++ s) ->
  valueOf (a ++ s) r = valueOf s r.
Proof.
  intros B G N; unfold valueOf.
  rewrite (String_match_after r a s B G N).
  destruct (String_match s r); reflexivity.
Qed.

(** The check by the matcher decides that no word stands before. *)
Lemma noMatchBefore_noWordBefore (r : regex) (a content : jsstring) :
  noMatchBefore r (length a) content = true -> noWordBefore r a content.
Proof.
  unfold noMatchBefore; rewrite forallb_forall.
  intros H p w q E M.
  destruct (Nat.lt_ge_cases (length p) (length a)) as [L | L]; [| exact L].
  exfalso.
  specialize (H (length p) ltac:(apply in_seq; lia)).
  rewrite E, skipn_length_app in H.
  pose proof (matcher_complete r (mkState (length p) (w ++ q) None) Some w q
                eq_refl M ltac:(discriminate)) as C.
  unfold matchAt in H.
  destruct (matcher r (mkState (length p) (w ++ q) None) Some);
    [discriminate H | contradiction].
Qed.

(** Each of the four lines, ended as a line is, gives its value. *)
Lemma janeDoe_line_values (b : jsstring) :
  lineEnd b ->
  valueOf (str "Patient Name: Jane Doe" ++ b) patientNameRegex = str "Jane Doe"
  /\ valueOf (str "Age: 47" ++ b) ageRegex = str "47"
  /\ valueOf (str "Gender: Female" ++ b) genderRegex = str "Female"
  /\ valueOf (str "Date: 04/02/1990" ++ b) dateRegex = str "04/02/1990".
Proof.
  intros [-> | [[b' ->] | [b' ->]]]; repeat split; vm_compute; reflexivity.
Qed.

Lemma holdsLine_value (r : regex) (line content expected : jsstring) :
  boundsInOrder r = true ->
  groups r <= 1 ->
  (forall b, lineEnd b -> valueOf (line ++ b) r = expected) ->
  holdsLine r line content ->
  valueOf content r = expected.
Proof.
  intros B G V (a & b & -> & Lb & N).
  rewrite (valueOf_after r a (line ++ b) B G N).
  exact (V b Lb).
Qed.

(** C4, amended: on any text that holds the four lines, each ended by the end
    of the text, a line feed or a carriage return and a line feed, and in
    which no pattern has a match that begins before its line, key-information
    extraction yields Jane Doe, 47, Female and 04/02/1990 for the four labels,
    each label by its own line alone; so it does on any text that begins with
    the four lines; and on every input the value of a label comes from the
    match of its own pattern alone: Not Found when that pattern has no match,
    the trimmed first group of the match otherwise. *)
Theorem C4_key_information (content post : jsstring) :
  (holdsLine patientNameRegex (str "Patient Name: Jane Doe") content ->
   valueOf content patientNameRegex = str "Jane Doe")
  /\ (holdsLine ageRegex (str "Age: 47") content ->
      valueOf content ageRegex = str "47")
  /\ (holdsLine genderRegex (str "Gender: Female") content ->
      valueOf content genderRegex = str "Female")
  /\ (holdsLine dateRegex (str "Date: 04/02/1990") content ->
      valueOf content dateRegex = str "04/02/1990")
  /\ (holdsLine patientNameRegex (str "Patient Name: Jane Doe") content ->
      holdsLine ageRegex (str "Age: 47") content ->
      holdsLine genderRegex (str "Gender: Female") content ->
      holdsLine dateRegex (str "Date: 04/02/1990") content ->
      extractKeyInformations content =
        Ok (map (fun lv => mkInfo (fst lv) (snd lv)) (combine labels janeDoeValues)))
  /\ extractKeyInformations (janeDoe ++ post) =
       Ok (map (fun lv => mkInfo (fst lv) (snd lv)) (combine labels janeDoeValues))
  /\ extractKeyInformations content =
       Ok (map (fun pattern =>
                  mkInfo (pattern_label pattern) (valueOf content (pattern_regex pattern)))
               keyPatterns)
  /\ (forall pattern,
         In pattern keyPatterns ->
         match String_match content (pattern_regex pattern) with
         | None => valueOf content (pattern_regex pattern) = str "Not Found"
         | Some m =>
             exists g, match1 m = Some g
                       /\ valueOf content (pattern_regex pattern) = trim g
         end).
Proof.
  assert (V1 : holdsLine patientNameRegex (str "Patient Name: Jane Doe") content ->
               valueOf content patientNameRegex = str "Jane Doe").
  { apply holdsLine_value; [reflexivity | simpl; lia |].
    intros b Lb; apply (janeDoe_line_values b Lb). }
  assert (V2 : holdsLine ageRegex (str "Age: 47") content ->
               valueOf content ageRegex = str "47").
  { apply holdsLine_value; [reflexivity | simpl; lia |].
    intros b Lb; apply (janeDoe_line_values b Lb). }
  assert (V3 : holdsLine genderRegex (str "Gender: Female") content ->
               valueOf content genderRegex = str "Female").
  { apply holdsLine_value; [reflexivity | simpl; lia |].
    intros b Lb; apply (janeDoe_line_values b Lb). }
  assert (V4 : holdsLine dateRegex (str "Date: 04/02/1990") content ->
               valueOf content dateRegex = str "04/02/1990").
  { apply holdsLine_value; [reflexivity | simpl; lia |].
    intros b Lb; apply (janeDoe_line_values b Lb). }
  split; [exact V1 |].
  split; [exact V2 |].
  split; [exact V3 |].
  split; [exact V4 |].
  split; [| split; [| split]].
  - intros H1 H2 H3 H4.
    rewrite extractKeyInformations_total.
    unfold keyPatterns; cbn [map pattern_label pattern_regex].
    rewrite (V1 H1), (V2 H2), (V3 H3), (V4 H4); reflexivity.
  - rewrite extractKeyInformations_total.
    rewrite <- (janeDoe_values post); reflexivity.
  - apply extractKeyInformations_total.
  - intros pattern Hin.
    assert (D : definesGroup (pattern_regex pattern) = true).
    { destruct Hin as [<- | [<- | [<- | [<- | []]]]]; reflexivity. }
    pose proof (patternValue_valueOf content _ D) as P.
    unfold patternValue, valueOf in *.
    destruct (String_match content (pattern_regex pattern)) as [m |]; [| reflexivity].
    destruct (match1 m) as [g |]; [| discriminate P].
    exists g; split; reflexivity.
Qed.

Lemma holdsLine_check (r : regex) (a line b : jsstring) :
  lineEnd b ->
  noMatchBefore r (length a) (a ++ line ++ b) = true ->
  holdsLine r line (a ++ line ++ b).
Proof.
  intros Lb H; exists a, b.
  split; [reflexivity | split; [exact Lb |]].
  apply noMatchBefore_noWordBefore; exact H.
Qed.

(** The four lines under a heading, with carriage returns before the line
    feeds. *)
Lemma C4_key_information_witness :
  extractKeyInformations headedReport =
    Ok (map (fun lv => mkInfo (fst lv) (snd lv)) (combine labels janeDoeValues)).
Proof.
  assert (E : forall t, lineEnd (CR :: LF :: t)) by (intros t; right; right; eauto).
  destruct (C4_key_information headedReport []) as (_ & _ & _ & _ & H & _).
  apply H.
  - apply (holdsLine_check patientNameRegex (str "Medical Report" ++ [CR; LF]));
      [apply E | vm_compute; reflexivity].
  - apply (holdsLine_check ageRegex
             (str "Medical Report" ++ [CR; LF] ++ str "Patient Name: Jane Doe" ++ [CR; LF]));
      [apply E | vm_compute; reflexivity].
  - apply (holdsLine_check genderRegex
             (str "Medical Report" ++ [CR; LF] ++ str "Patient Name: Jane Doe" ++ [CR; LF]
              ++ str "Age: 47" ++ [CR; LF]));
      [apply E | vm_compute; reflexivity].
  - apply (holdsLine_check dateRegex
             (str "Medical Report" ++ [CR; LF] ++ str "Patient Name: Jane Doe" ++ [CR; LF]
              ++ str "Age: 47" ++ [CR; LF] ++ str "Gender: Female" ++ [CR; LF]));
      [apply E | vm_compute; reflexivity].
Defined.

(** A workbook that cannot be read, uploaded first: the component stays on
    the analyzing panel, with no message. *)
Lemma X11_first_upload_shows_nothing_witness :
  trace (upload (textOf []) (rowsOf []) sheetsPending damagedXlsx initialWorld)
    = [Call_parseExcel]
  /\ panel (render (state (upload (textOf []) (rowsOf []) sheetsPending damagedXlsx
                             initialWorld)))
     = AnalyzingPanel.
Proof.
  destruct (X11_first_upload_shows_nothing (textOf []) (rowsOf []) sheetsPending damagedXlsx)
    as (_ & _ & H).
  exact H.
Defined.
